(** * Numerixx polynomial root solving (PolyRoots.hpp): model and properties

    The development embeds [nxx::poly::impl::sortRoots], [linear],
    [quadratic], [cubic], [laguerre] and [polysolve] together with the
    [newt] lambda of [polysolve].  The C++ code is a template over the
    floating-point type of the polynomial; the embedding is accordingly
    parameterised by a class of scalar operations ([Scalar]), and the
    properties are proved for every instance.  A binary64 instance built on
    the primitive floats is used to run the code on concrete inputs.  The
    solvers are embedded on complex coefficients, as [polysolve] calls
    them; [quadratic] is embedded on real coefficients as well
    ([OnReals]). *)

From Stdlib Require Import String ZArith QArith List Bool Lia Permutation Sorted.
From Stdlib Require Import Floats.PrimFloat Numbers.Cyclic.Int63.Uint63.
From Stdlib Require Floats.FloatOps Floats.FloatAxioms Floats.SpecFloat.
Import ListNotations.

Local Close Scope Q_scope.
Local Open Scope Z_scope.
Local Open Scope list_scope.

Set Implicit Arguments.

(** ** The scalar types of the templates

    [F] is [PolynomialTraits<POLY>::fundamental_type] (FLOAT_TYPE in the
    source) and [C] is [std::complex<FLOAT_TYPE>] (COMPLEX_TYPE).  The
    fields are the operations of <cmath> and <complex> that the source
    calls; no algebraic law is assumed of them. *)
Class Scalar (F C : Type) : Type := {
  (** the value of a floating literal such as [0.1] or [54.0] *)
  lit : Q -> F;
  fsub : F -> F -> F;
  fmul : F -> F -> F;
  fsqrt : F -> F;                  (* std::sqrt on FLOAT_TYPE *)
  fabs : F -> F;                   (* std::abs on FLOAT_TYPE *)
  flt : F -> F -> bool;            (* x < y *)
  fle : F -> F -> bool;            (* x <= y *)
  feqb : F -> F -> bool;           (* x == y *)
  isfinite : F -> bool;            (* std::isfinite *)
  cmk : F -> F -> C;               (* std::complex<FLOAT_TYPE>(re, im) *)
  re : C -> F;                     (* .real() *)
  im : C -> F;                     (* .imag() *)
  cadd : C -> C -> C;
  csub : C -> C -> C;
  cmul : C -> C -> C;
  cdiv : C -> C -> C;
  cneg : C -> C;
  cscale : F -> C -> C;            (* FLOAT_TYPE * complex *)
  cdivr : C -> F -> C;             (* complex / FLOAT_TYPE *)
  cconj : C -> C;                  (* std::conj *)
  cabs : C -> F;                   (* abs on complex *)
  csqrt : C -> C;                  (* sqrt on complex *)
  cpow_third : C -> C              (* std::pow(x, 1.0 / 3.0) *)
}.

(** [nxx::EPS] of Constants.hpp, a header that is not among the sources:
    the default tolerance is taken as a parameter. *)
Class Constants (F : Type) : Type := {
  EPS : F
}.

(** ** Errors and results

    The source reports failures in two ways: it throws a [NumerixxError]
    (an exception, which no function of the file catches) or it returns a
    [tl::unexpected] carrying one.  Loops are modelled with fuel; [OutOfFuel]
    is the answer of a loop whose fuel ran out, and is shown below never to
    be the answer of [laguerre], [newt] or [polysolve]. *)
Inductive NumerixxError : Type :=
| InvalidTolerance
| InvalidMaxIterations
| NotLinear
| NotQuadratic
| NotCubic
| OrderBelowFour
| TooFewCoefficients
| QuadraticIllFormed
| MaxIterationsReached
| LinearNoSolution
| QuadraticNoSolution
| CubicNoSolution
| LaguerreFailed
| NewtonFailed
| RootNotFinite.

(** The fixed text of each message ([std::to_string] of the offending
    value, where the source splices it in, is left out). *)
Definition what (e : NumerixxError) : string :=
  match e with
  | InvalidTolerance => "Invalid tolerance value. Tolerance must be a positive number."
  | InvalidMaxIterations =>
      "Invalid maximum number of iterations. Maximum number of iterations must be greater than zero."
  | NotLinear => "Error: Input is not a linear polynomial."
  | NotQuadratic => "Error: Input is not a quadratic polynomial."
  | NotCubic => "Cubic Error: Polynomial is not cubic."
  | OrderBelowFour => "Error: Polynomial must be of order 4 or higher."
  | TooFewCoefficients => "Polynomial must have at least two coefficients (a monomial)."
  | QuadraticIllFormed => "Quadratic polynomial is ill formed."
  | MaxIterationsReached => "Maximum number of iterations reached."
  | LinearNoSolution => "Error: Linear equation has no solution."
  | QuadraticNoSolution => "Error: Quadratic equation has no solution."
  | CubicNoSolution => "Error: Cubic equation has no solution."
  | LaguerreFailed => "Error: Laguerre's method failed to converge."
  | NewtonFailed => "Error: Newton's method failed to converge."
  | RootNotFinite => "Error: Root is not finite."
  end.

Inductive outcome (A : Type) : Type :=
| Value (a : A)                     (* the expected holds a value *)
| Unexpected (e : NumerixxError)    (* tl::unexpected(e) *)
| Throw (e : NumerixxError)         (* throw e *)
| OutOfFuel.

Arguments Value {A} a.
Arguments Unexpected {A} e.
Arguments Throw {A} e.
Arguments OutOfFuel {A}.

(** Sequencing: anything but a value ends the computation. *)
Definition bind {A B : Type} (x : outcome A) (k : A -> outcome B) : outcome B :=
  match x with
  | Value a => k a
  | Unexpected e => Unexpected e
  | Throw e => Throw e
  | OutOfFuel => OutOfFuel
  end.

(** [auto r = f(...); if (!r) return EXPECTED(tl::unexpected(e'));]
    replaces the error of a failed [expected] and lets an exception pass. *)
Definition expect {A : Type} (x : outcome A) (e' : NumerixxError) : outcome A :=
  match x with
  | Value a => Value a
  | Unexpected _ => Unexpected e'
  | Throw e => Throw e
  | OutOfFuel => OutOfFuel
  end.

Declare Scope outcome_scope.
Delimit Scope outcome_scope with outcome.
Notation "x <- c1 ;; c2" := (bind c1 (fun x => c2))
  (at level 61, c1 at next level, right associativity) : outcome_scope.
Local Open Scope outcome_scope.

(** The template parameter RT after [std::conditional_t]: the roots are asked
    for as real numbers or as complex numbers. *)
Inductive ReturnType : Type := RT_real | RT_complex.

Section PolyRoots.

Context {F C : Type} {ops : Scalar F C} {consts : Constants F}.

Definition RET (rt : ReturnType) : Type :=
  match rt with RT_real => F | RT_complex => C end.

Definition c_of_real (x : F) : C := cmk x (lit 0%Q).

(** ** The Polynomial value type *)

(** Modelled from the spec: the Polynomial value type, whose header
    Polynomial.hpp is not among the sources.  A polynomial is the ordered
    sequence of its coefficients, constant term first and leading
    coefficient last; [polysolve] works on [Polynomial<COMPLEX_TYPE>]. *)
Record Polynomial : Type := mkPolynomial { coefficients : list C }.

(** Modelled from the spec: [order()] of the missing Polynomial type, the
    length of the coefficient sequence minus one. *)
Definition order (p : Polynomial) : nat := (length (coefficients p) - 1)%nat.

(** [coeffs[i]] *)
Definition coeff (p : Polynomial) (i : nat) : C :=
  nth i (coefficients p) (c_of_real (lit 0%Q)).

(** Modelled from the spec: function-call evaluation of the missing
    Polynomial type at a complex argument, by Horner's rule. *)
Definition eval (p : Polynomial) (x : C) : C :=
  fold_right (fun a acc => cadd a (cmul x acc)) (c_of_real (lit 0%Q)) (coefficients p).

(** The running values [b_k = a_k + r * b_(k+1)] of the synthetic division
    of [a_0 + a_1 x + ...] by [x - r], lowest index first. *)
Fixpoint synthetic (cs : list C) (r : C) : list C :=
  match cs with
  | [] => []
  | a :: t =>
      let bs := synthetic t r in
      match bs with
      | [] => a :: bs
      | b :: _ => cadd a (cmul r b) :: bs
      end
  end.

(** Modelled from the spec: [polynomial /= Polynomial{ -root, 1.0 }], the
    division of the missing Polynomial type by the linear factor
    [(x - root)]; it yields a new polynomial of order one less (the quotient
    of the synthetic division; the remainder is dropped). *)
Definition deflate (p : Polynomial) (root : C) : Polynomial :=
  mkPolynomial (tl (synthetic (coefficients p) root)).

(** The coefficients [k * a_k] of the derivative, for [k] from [k0]. *)
Fixpoint derive_from (k0 : Z) (cs : list C) : list C :=
  match cs with
  | [] => []
  | a :: t => cscale (lit (inject_Z k0)) a :: derive_from (k0 + 1) t
  end.

(** Modelled from the spec: the overload of [derivativeOf] for Polynomial
    objects (declared with the missing Polynomial type), which computes the
    derivative analytically. *)
Definition derivativeOf (p : Polynomial) : Polynomial :=
  mkPolynomial (derive_from 1 (tl (coefficients p))).

(** ** impl::sortRoots *)

(** The comparison lambda of [sortRoots]. *)
Definition sortingFunc (toleranceSqrt : F) (root1 root2 : C) : bool :=
  if flt (fabs (fsub (re root2) (re root1))) toleranceSqrt
  then flt (im root1) (im root2)
  else flt (re root1) (re root2).

(** [std::sort] belongs to the C++ standard library.  It is modelled by
    insertion sort with respect to the comparison [comp]. *)
Fixpoint insert_by (comp : C -> C -> bool) (x : C) (l : list C) : list C :=
  match l with
  | [] => [x]
  | y :: t => if comp x y then x :: y :: t else y :: insert_by comp x t
  end.

Definition std_sort (comp : C -> C -> bool) (l : list C) : list C :=
  fold_right (insert_by comp) [] l.

(** The predicate given to [std::erase_if]. *)
Definition not_real (toleranceSqrt : F) (elem : C) : bool :=
  fle toleranceSqrt (fabs (im elem)).

Definition sortRoots (rt : ReturnType) (roots : list C) (tolerance : F)
  : outcome (list (RET rt)) :=
  if fle tolerance (lit 0%Q) then Throw InvalidTolerance
  else
    let toleranceSqrt := fsqrt tolerance in
    match rt return outcome (list (RET rt)) with
    | RT_real =>
        let roots := filter (fun elem => negb (not_real toleranceSqrt elem)) roots in
        let roots := std_sort (sortingFunc toleranceSqrt) roots in
        Value (map re roots)
    | RT_complex =>
        let roots := std_sort (sortingFunc toleranceSqrt) roots in
        Value roots
    end.

(** ** The analytic solvers *)

Definition linear (rt : ReturnType) (poly : Polynomial) (tolerance : F)
  : outcome (list (RET rt)) :=
  if fle tolerance (lit 0%Q) then Throw InvalidTolerance
  else if negb (order poly =? 1)%nat then Throw NotLinear
  else
    let front := hd (c_of_real (lit 0%Q)) (coefficients poly) in
    let back := last (coefficients poly) (c_of_real (lit 0%Q)) in
    let root := [cdiv (cneg front) back] in
    sortRoots rt root tolerance.

(** [sqrt(b * b - 4.0 * a * c)], named [discriminant] in the source. *)
Definition quadratic_discriminant (a b c : C) : C :=
  csqrt (csub (cmul b b) (cmul (cscale (lit 4%Q) a) c)).

(** The local [q] of [quadratic]. *)
Definition quadratic_q (a b c : C) : C :=
  let discriminant := quadratic_discriminant a b c in
  let sqrt_component := cmul (cconj b) discriminant in
  cscale (lit (-0.5)%Q)
    (cadd b (if fle (lit 0%Q) (re sqrt_component) then discriminant else cneg discriminant)).

(** [quadratic] on a [Polynomial<COMPLEX_TYPE>], as [polysolve] calls it:
    the coefficients and the square root are complex.  The instantiation on
    real coefficients is [OnReals.quadratic] below. *)
Definition quadratic (rt : ReturnType) (poly : Polynomial) (tolerance : F)
  : outcome (list (RET rt)) :=
  if fle tolerance (lit 0%Q) then Throw InvalidTolerance
  else if negb (order poly =? 2)%nat then Throw NotQuadratic
  else
    let a := coeff poly 2 in
    let b := coeff poly 1 in
    let c := coeff poly 0 in
    let q := quadratic_q a b c in
    if flt (cabs q) tolerance || flt (cabs a) tolerance
    then Unexpected QuadraticIllFormed
    else
      let roots := [cdiv q a; cdiv c q] in
      sortRoots rt roots tolerance.

(** The three roots computed by [cubic] before they are sorted. *)
Definition cubic_roots (poly : Polynomial) : list C :=
  let back := last (coefficients poly) (c_of_real (lit 0%Q)) in
  let coeff := map (fun elem => cdiv elem back) (coefficients poly) in
  let zero := c_of_real (lit 0%Q) in
  let a := nth 2 coeff zero in
  let b := nth 1 coeff zero in
  let c := nth 0 coeff zero in
  let Q := cdivr (csub (cmul a a) (cscale (lit 3%Q) b)) (lit 9%Q) in
  let R := cdivr (cadd (csub (cmul (cmul (cscale (lit 2%Q) a) a) a)
                             (cmul (cscale (lit 9%Q) a) b))
                       (cscale (lit 27%Q) c))
                 (lit 54%Q) in
  let disc := csqrt (csub (cmul R R) (cmul (cmul Q Q) Q)) in
  let A := cneg (cpow_third
                   (cadd R (if fle (lit 0%Q) (re (cmul (cconj R) disc))
                            then disc else cneg disc))) in
  let B := if feqb (cabs A) (lit 0%Q) then c_of_real (lit 0%Q) else cdiv Q A in
  let i := cmk (lit 0%Q) (lit 1%Q) in
  let w := cmul (cscale (fmul (lit 0.5%Q) (fsqrt (lit 3%Q))) (csub A B)) i in
  [ csub (cadd A B) (cdivr a (lit 3%Q));
    cadd (csub (cscale (lit (-0.5)%Q) (cadd A B)) (cdivr a (lit 3%Q))) w;
    csub (csub (cscale (lit (-0.5)%Q) (cadd A B)) (cdivr a (lit 3%Q))) w ].

Definition cubic (rt : ReturnType) (poly : Polynomial) (tolerance : F)
  : outcome (list (RET rt)) :=
  if fle tolerance (lit 0%Q) then Throw InvalidTolerance
  else if negb (order poly =? 3)%nat then Throw NotCubic
  else sortRoots rt (cubic_roots poly) tolerance.

(** ** laguerre *)

(** The [laguerrestep] lambda. *)
Definition laguerrestep (g_param h_param : C) : option C :=
  let temp := csqrt (cscale (lit 2%Q)
                       (csub (cscale (lit 3%Q) h_param) (cmul g_param g_param))) in
  if flt (cabs (cadd g_param temp)) EPS then None
  else Some (cdiv (c_of_real (lit 3%Q))
               (if flt (cabs (csub g_param temp)) (cabs (cadd g_param temp))
                then cadd g_param temp else csub g_param temp)).

(** The value of [*step] at the test [abs( *step ) < tolerance]: the
    Laguerre step at [root], or 0.1 when [laguerrestep] gave none. *)
Definition laguerre_step (poly d1poly d2poly : Polynomial) (root : C) : C :=
  let G := cdiv (eval d1poly root) (eval poly root) in
  let H := csub (cmul G G) (cdiv (eval d2poly root) (eval poly root)) in
  match laguerrestep G H with
  | Some step => step
  | None => c_of_real (lit 0.1%Q)
  end.

(** The [while (true)] loop of [laguerre].  [i] is the iteration counter and
    [root] the current estimate; [dist] is the sequence of numbers that
    [dist(mt)] returns on its successive calls and [drawn] counts the calls
    made so far.  The loop ends with the counter and the root it stopped
    at, or with the failure of the first test. *)
Fixpoint laguerre_loop (poly d1poly d2poly : Polynomial) (tolerance : F)
    (max_iterations : Z) (dist : nat -> F)
    (fuel : nat) (i : Z) (root : C) (drawn : nat) : outcome (Z * C) :=
  match fuel with
  | O => OutOfFuel
  | S fuel' =>
      if max_iterations <=? i then Unexpected MaxIterationsReached
      else if flt (cabs (eval poly root)) tolerance then Value (i, root)
      else
        let step := laguerre_step poly d1poly d2poly root in
        if flt (cabs step) tolerance then Value (i, root)
        else
          let '(step, drawn) :=
            if Z.rem i 10 =? 0 then (c_of_real (dist drawn), S drawn)
            else (step, drawn) in
          laguerre_loop poly d1poly d2poly tolerance max_iterations dist
            fuel' (i + 1) (csub root step) drawn
  end.

(** [laguerre], returning with the root the value of the iteration counter
    at the exit (0 when the guess is accepted as it is). *)
Definition laguerre_run (poly : Polynomial) (guess : C) (tolerance : F)
    (max_iterations : Z) (dist : nat -> F) : outcome (Z * C) :=
  if fle tolerance (lit 0%Q) then Throw InvalidTolerance
  else if max_iterations <? 1 then Throw InvalidMaxIterations
  else if (order poly <=? 3)%nat then Throw OrderBelowFour
  else if flt (cabs (eval poly guess)) tolerance then Value (0, guess)
  else
    let d1poly := derivativeOf poly in
    let d2poly := derivativeOf d1poly in
    laguerre_loop poly d1poly d2poly tolerance max_iterations dist
      (S (Z.to_nat max_iterations)) 0 guess 0.

Definition laguerre (poly : Polynomial) (guess : C) (tolerance : F)
    (max_iterations : Z) (dist : nat -> F) : outcome C :=
  stop <- laguerre_run poly guess tolerance max_iterations dist ;;
  Value (snd stop).

(** ** polysolve *)

(** The [while (true)] loop of the [newt] lambda; [Value None] is
    [std::nullopt]. *)
Fixpoint newt_loop (tolerance : F) (max_iterations : Z) (f df : Polynomial)
    (fuel : nat) (i : Z) (x : C) : outcome (option C) :=
  match fuel with
  | O => OutOfFuel
  | S fuel' =>
      if max_iterations <=? i then Value None
      else if flt (cabs (eval df x)) EPS then Value None
      else
        let dx := cdiv (eval f x) (eval df x) in
        let x := csub x dx in
        let fval := eval f x in
        if flt (fabs (re fval)) tolerance && flt (fabs (im fval)) tolerance &&
           flt (fabs (re dx)) tolerance && flt (fabs (im dx)) tolerance
        then Value (Some x)
        else newt_loop tolerance max_iterations f df fuel' (i + 1) x
  end.

(** The [newt] lambda; it captures [tolerance] and [max_iterations] by
    value. *)
Definition newt (tolerance : F) (max_iterations : Z) (f : Polynomial) (x : C)
  : outcome (option C) :=
  let df := derivativeOf f in
  newt_loop tolerance max_iterations f df (S (Z.to_nat max_iterations)) 0 x.

(** The three locals that the loop of the [default] case works on. *)
Record LoopState : Type := mkLoopState {
  polynomial : Polynomial;   (* the working polynomial, deflated in the loop *)
  original : Polynomial;     (* the copy of the input kept for polishing *)
  roots : list C
}.

(** [std::isfinite(original(r).real())] and
    [std::isfinite(original(r).imag())] *)
Definition finite_on (p : Polynomial) (r : C) : bool :=
  isfinite (re (eval p r)) && isfinite (im (eval p r)).

(** One pass through the body of [while (polynomial.order() > 3)].  Every
    call of [laguerre] seeds a generator of its own from
    [std::random_device]; [random_device n] is the sequence of draws of the
    generator of the call that follows the extraction of [n] roots. *)
Definition deflation_pass (tolerance : F) (max_iterations : Z)
    (random_device : nat -> nat -> F) (st : LoopState) : outcome LoopState :=
  root <- expect (laguerre (polynomial st) (c_of_real (lit 0%Q)) tolerance max_iterations
                    (random_device (length (roots st))))
            LaguerreFailed ;;
  let roots1 := roots st ++ [root] in
  polished_root <- newt tolerance max_iterations (original st)
                     (last roots1 (c_of_real (lit 0%Q))) ;;
  match polished_root with
  | None => Unexpected NewtonFailed
  | Some polished =>
      let roots2 := removelast roots1 ++ [polished] in
      let back := last roots2 (c_of_real (lit 0%Q)) in
      if negb (isfinite (re (eval (original st) back))) ||
         negb (isfinite (im (eval (original st) back)))
      then Unexpected RootNotFinite
      else Value {| polynomial := deflate (polynomial st) back;
                    original := original st;
                    roots := roots2 |}
  end.

Fixpoint deflation_loop (tolerance : F) (max_iterations : Z)
    (random_device : nat -> nat -> F) (fuel : nat) (st : LoopState)
  : outcome LoopState :=
  if (3 <? order (polynomial st))%nat then
    match fuel with
    | O => OutOfFuel
    | S fuel' =>
        st' <- deflation_pass tolerance max_iterations random_device st ;;
        deflation_loop tolerance max_iterations random_device fuel' st'
    end
  else Value st.

(** The [switch (poly.order())] of [polysolve]: the vector [roots] as it
    stands before the final [impl::sortRoots].  The analytic solvers are
    called without a tolerance argument, hence with their default
    [nxx::EPS]. *)
Definition polysolve_roots (poly : Polynomial) (tolerance : F) (max_iterations : Z)
    (random_device : nat -> nat -> F) : outcome (list C) :=
  let polynomial0 := mkPolynomial (coefficients poly) in
  let original0 := mkPolynomial (coefficients poly) in
  let roots0 : list C := [] in
  match order poly with
  | 1%nat =>
      linroot <- expect (linear RT_complex polynomial0 EPS) LinearNoSolution ;;
      Value (roots0 ++ linroot)
  | 2%nat =>
      quadroots <- expect (quadratic RT_complex polynomial0 EPS) QuadraticNoSolution ;;
      Value (roots0 ++ quadroots)
  | 3%nat =>
      cubicroots <- expect (cubic RT_complex polynomial0 EPS) CubicNoSolution ;;
      Value (roots0 ++ cubicroots)
  | _ =>
      st <- deflation_loop tolerance max_iterations random_device (order poly)
              (mkLoopState polynomial0 original0 roots0) ;;
      cuberoots <- expect (cubic RT_complex (polynomial st) EPS) CubicNoSolution ;;
      Value (roots st ++ cuberoots)
  end.

Definition polysolve (rt : ReturnType) (poly : Polynomial) (tolerance : F)
    (max_iterations : Z) (random_device : nat -> nat -> F)
  : outcome (list (RET rt)) :=
  if fle tolerance (lit 0%Q) then Throw InvalidTolerance
  else if max_iterations <? 1 then Throw InvalidMaxIterations
  else if (order poly <? 1)%nat then Throw TooFewCoefficients
  else
    roots <- polysolve_roots poly tolerance max_iterations random_device ;;
    sortRoots rt roots tolerance.

(** ** Vocabulary of the properties *)

(** A positive tolerance: [0 < tolerance], and the guard
    [if (tolerance <= 0) throw ...] does not fire.  No law relates the two
    comparisons of [Scalar], so both facts are stated. *)
Definition positive (tolerance : F) : Prop :=
  flt (lit 0%Q) tolerance = true /\ fle tolerance (lit 0%Q) = false.




(** The working polynomial after the roots [extracted] were divided out of
    [poly], one after the other. *)
Definition deflated_by (poly : Polynomial) (extracted : list C) : Polynomial :=
  fold_left deflate extracted poly.

(** The locals of [polysolve] when the loop of the [default] case is
    entered: two copies of the input and no root. *)
Definition initial_state (poly : Polynomial) : LoopState :=
  mkLoopState (mkPolynomial (coefficients poly)) (mkPolynomial (coefficients poly)) [].

(** [passes n st st']: from the state [st], the loop
    [while (polynomial.order() > 3)] makes [n] successful passes and reaches
    the state [st']. *)
Inductive passes (tolerance : F) (max_iterations : Z) (random_device : nat -> nat -> F)
  : nat -> LoopState -> LoopState -> Prop :=
| passes_done (st : LoopState) :
    passes tolerance max_iterations random_device 0 st st
| passes_step (n : nat) (st st1 st2 : LoopState) :
    (3 < order (polynomial st))%nat ->
    deflation_pass tolerance max_iterations random_device st = Value st1 ->
    passes tolerance max_iterations random_device n st1 st2 ->
    passes tolerance max_iterations random_device (S n) st st2.

(** The loop of [laguerre] as the specification words it: on every tenth
    iteration the computed step is multiplied by the random scalar.  It
    differs from [laguerre_loop] in the perturbed step only. *)
Fixpoint laguerre_loop_scaling (poly d1poly d2poly : Polynomial) (tolerance : F)
    (max_iterations : Z) (dist : nat -> F)
    (fuel : nat) (i : Z) (root : C) (drawn : nat) : outcome (Z * C) :=
  match fuel with
  | O => OutOfFuel
  | S fuel' =>
      if max_iterations <=? i then Unexpected MaxIterationsReached
      else if flt (cabs (eval poly root)) tolerance then Value (i, root)
      else
        let step := laguerre_step poly d1poly d2poly root in
        if flt (cabs step) tolerance then Value (i, root)
        else
          let '(step, drawn) :=
            if Z.rem i 10 =? 0 then (cscale (dist drawn) step, S drawn)
            else (step, drawn) in
          laguerre_loop_scaling poly d1poly d2poly tolerance max_iterations dist
            fuel' (i + 1) (csub root step) drawn
  end.

End PolyRoots.

(** ** The solvers called on real coefficients

    The solvers are templates over the polynomial type.  [polysolve]
    converts its input to [Polynomial<COMPLEX_TYPE>] before it calls
    [linear], [quadratic] and [cubic]; the definitions above are these
    instantiations.  Called on a [Polynomial<FLOAT_TYPE>], [quadratic] has
    VALUE_TYPE = FLOAT_TYPE: the coefficients [a], [b] and [c] are real,
    [b * b - 4.0 * a * c] and its [sqrt] are those of FLOAT_TYPE, and the
    square root is converted to COMPLEX_TYPE afterwards. *)
Module OnReals.

Section Functions.

Context {F C : Type} {ops : Scalar F C} {consts : Constants F}.

(** Modelled from the spec: the missing Polynomial type at real
    coefficients, [Polynomial<FLOAT_TYPE>], constant term first. *)
Record RealPolynomial : Type := mkRealPolynomial { coefficients : list F }.

(** Modelled from the spec: [order()] of the missing Polynomial type. *)
Definition order (p : RealPolynomial) : nat := (length (coefficients p) - 1)%nat.

(** [coeffs[i]] *)
Definition coeff (p : RealPolynomial) (i : nat) : F :=
  nth i (coefficients p) (lit 0%Q).

(** [x + z] for a FLOAT_TYPE [x] and a complex [z]: [operator+] of
    <complex> adds [x] to the real part and leaves the imaginary part. *)
Definition real_plus (x : F) (z : C) : C :=
  cmk (re (cadd (c_of_real x) z)) (im z).

(** [quadratic] on a [Polynomial<FLOAT_TYPE>].  [std::conj(b)] of a real
    [b] is the complex number [b - 0i]; [q / a] divides a complex number by
    a real one and [c / q] a real number by a complex one. *)
Definition quadratic (rt : ReturnType) (poly : RealPolynomial) (tolerance : F)
  : outcome (list (RET rt)) :=
  if fle tolerance (lit 0%Q) then Throw InvalidTolerance
  else if negb (order poly =? 2)%nat then Throw NotQuadratic
  else
    let a := coeff poly 2 in
    let b := coeff poly 1 in
    let c := coeff poly 0 in
    let discriminant : C :=
      c_of_real (fsqrt (fsub (fmul b b) (fmul (fmul (lit 4%Q) a) c))) in
    let sqrt_component : C := cmul (cconj (c_of_real b)) discriminant in
    let q : C :=
      cscale (lit (-0.5)%Q)
        (real_plus b (if fle (lit 0%Q) (re sqrt_component)
                      then discriminant else cneg discriminant)) in
    if flt (cabs q) tolerance || flt (fabs a) tolerance
    then Unexpected QuadraticIllFormed
    else
      let roots := [cdivr q a; cdiv (c_of_real c) q] in
      sortRoots rt roots tolerance.

(** [Polynomial<COMPLEX_TYPE>(std::vector<COMPLEX_TYPE>{ poly.begin(),
    poly.end() })], the conversion at the head of [polysolve]. *)
Definition to_complex (poly : RealPolynomial) : Polynomial :=
  mkPolynomial (map c_of_real (coefficients poly)).

(** [polysolve] on a [Polynomial<FLOAT_TYPE>]: everything after the
    conversion works on complex coefficients. *)
Definition polysolve (rt : ReturnType) (poly : RealPolynomial) (tolerance : F)
    (max_iterations : Z) (random_device : nat -> nat -> F)
  : outcome (list (RET rt)) :=
  polysolve rt (to_complex poly) tolerance max_iterations random_device.

End Functions.

End OnReals.

(** ** The earlier revision of PolyRoots.hpp

    The sources hold an earlier revision of the header, in which the
    functions return plain values and report errors by throwing an
    [error::PolynomialError] only.  Its [quadratic] and [cubic] compute the
    same expressions as the later ones ([quadratic_q], [cubic_roots]). *)
Module V1.

Inductive PolynomialError : Type :=
| NotMonomial
| NotQuadratic
| NotCubic
| TooFewCoefficients.

Definition what (e : PolynomialError) : string :=
  match e with
  | NotMonomial => "Polynomial Error: Input is not a monomial."
  | NotQuadratic => "Polynomial Error: Polynomial is not quadratic."
  | NotCubic => "Polynomial Error: Polynomial is not cubic."
  | TooFewCoefficients => "Polynomial must have at least two coefficients (a monomial)."
  end.

(** A function returns, throws, or (a loop of the model) runs out of fuel. *)
Inductive answer (A : Type) : Type :=
| Returns (a : A)
| Throws (e : PolynomialError)
| NoFuel.

Arguments Returns {A} a.
Arguments Throws {A} e.
Arguments NoFuel {A}.

Definition then_ {A B : Type} (x : answer A) (k : A -> answer B) : answer B :=
  match x with
  | Returns a => k a
  | Throws e => Throws e
  | NoFuel => NoFuel
  end.

Section Functions.

Context {F C : Type} {ops : Scalar F C} {consts : Constants F}.

(** [impl::sortAndReturn]: the roots are sorted by real part; for a real
    return type the real parts of the roots with [abs(imag) < tolerance]
    are collected in that order. *)
Definition sortAndReturn (rt : ReturnType) (roots : list C) (tolerance : F)
  : list (RET rt) :=
  let roots := std_sort (fun a b => flt (re a) (re b)) roots in
  match rt return list (RET rt) with
  | RT_complex => roots
  | RT_real => map re (filter (fun elem => flt (fabs (im elem)) tolerance) roots)
  end.

Definition linear (poly : Polynomial) : answer C :=
  if negb (order poly =? 1)%nat then Throws NotMonomial
  else Returns (cdiv (cneg (hd (c_of_real (lit 0%Q)) (coefficients poly)))
                     (last (coefficients poly) (c_of_real (lit 0%Q)))).

Definition quadratic (rt : ReturnType) (poly : Polynomial) (tolerance : F)
  : answer (list (RET rt)) :=
  if negb (order poly =? 2)%nat then Throws NotQuadratic
  else
    let a := coeff poly 2 in
    let b := coeff poly 1 in
    let c := coeff poly 0 in
    let q := quadratic_q a b c in
    let roots := [cdiv q a; cdiv c q] in
    Returns (sortAndReturn rt roots tolerance).

Definition cubic (rt : ReturnType) (poly : Polynomial) (tolerance : F)
  : answer (list (RET rt)) :=
  if negb (order poly =? 3)%nat then Throws NotCubic
  else Returns (sortAndReturn rt (cubic_roots poly) tolerance).

(** The [laguerrestep] lambda of this revision: no test of the
    denominator. *)
Definition laguerrestep (g_param h_param : C) : C :=
  let temp := csqrt (cscale (lit 2%Q)
                       (csub (cscale (lit 3%Q) h_param) (cmul g_param g_param))) in
  cdiv (c_of_real (lit 3%Q))
    (if flt (cabs (csub g_param temp)) (cabs (cadd g_param temp))
     then cadd g_param temp else csub g_param temp).

(** The [for (int i = 0; i < max_iterations; ++i)] loop of [laguerre]. *)
Fixpoint laguerre_loop (poly d1poly d2poly : Polynomial) (tolerance : F)
    (max_iterations : Z) (dist : nat -> F)
    (fuel : nat) (i : Z) (root : C) (drawn : nat) : answer C :=
  match fuel with
  | O => NoFuel
  | S fuel' =>
      if max_iterations <=? i then Returns root
      else
        let G := cdiv (eval d1poly root) (eval poly root) in
        let H := csub (cmul G G) (cdiv (eval d2poly root) (eval poly root)) in
        let step := laguerrestep G H in
        let step := if negb (isfinite (cabs step)) then c_of_real (lit 0.1%Q) else step in
        if flt (cabs step) tolerance then Returns root
        else
          let '(step, drawn) :=
            if Z.rem i 10 =? 0 then (cscale (dist drawn) step, S drawn)
            else (step, drawn) in
          laguerre_loop poly d1poly d2poly tolerance max_iterations dist
            fuel' (i + 1) (csub root step) drawn
  end.

Definition laguerre (poly : Polynomial) (guess : C) (tolerance : F)
    (max_iterations : Z) (dist : nat -> F) : answer C :=
  if flt (cabs (eval poly guess)) tolerance then Returns guess
  else
    let d1poly := derivativeOf poly in
    let d2poly := derivativeOf d1poly in
    laguerre_loop poly d1poly d2poly tolerance max_iterations dist
      (S (Z.to_nat max_iterations)) 0 guess 0.

(** The loop [while (polynomial.order() > 3)] of [polysolve]: a root of the
    working polynomial is found from the guess 0, polished by a second
    [laguerre] on the input [poly], and divided out.  [random_device n] is
    the sequence of draws of the generator of the call of [laguerre] that
    follows [n] earlier calls. *)
Fixpoint deflation_loop (poly : Polynomial) (tolerance : F) (max_iterations : Z)
    (random_device : nat -> nat -> F) (fuel : nat)
    (polynomial : Polynomial) (roots : list C) : answer (Polynomial * list C) :=
  if (3 <? order polynomial)%nat then
    match fuel with
    | O => NoFuel
    | S fuel' =>
        then_ (laguerre polynomial (c_of_real (lit 0%Q)) tolerance max_iterations
                 (random_device (2 * length roots)%nat))
          (fun root =>
             then_ (laguerre poly root tolerance max_iterations
                      (random_device (2 * length roots + 1)%nat))
               (fun polished =>
                  deflation_loop poly tolerance max_iterations random_device fuel'
                    (deflate polynomial polished) (roots ++ [polished])))
    end
  else Returns (polynomial, roots).

Definition polysolve (rt : ReturnType) (poly : Polynomial) (tolerance : F)
    (max_iterations : Z) (random_device : nat -> nat -> F)
  : answer (list (RET rt)) :=
  if (order poly <=? 1)%nat then Throws TooFewCoefficients
  else
    let polynomial := mkPolynomial (coefficients poly) in
    let roots : list C := [] in
    then_
      match order poly with
      | 1%nat =>
          then_ (linear polynomial) (fun root => Returns (roots ++ [root]))
      | 2%nat =>
          then_ (quadratic RT_complex polynomial EPS)
            (fun quadroots => Returns (roots ++ quadroots))
      | 3%nat =>
          then_ (cubic RT_complex polynomial EPS)
            (fun cubicroots => Returns (roots ++ cubicroots))
      | _ =>
          then_ (deflation_loop poly tolerance max_iterations random_device
                   (order poly) polynomial roots)
            (fun stop =>
               then_ (cubic RT_complex (fst stop) EPS)
                 (fun cuberoots => Returns (snd stop ++ cuberoots)))
      end
      (fun roots => Returns (sortAndReturn rt roots tolerance)).

End Functions.

End V1.

(** ** A binary64 instance

    FLOAT_TYPE = double on the primitive floats: the operations of <cmath>
    are the IEEE 754 ones; those of <complex> follow the textbook formulas,
    and the cube root is computed by Newton's iteration. *)
Module Binary64.

Local Open Scope float_scope.

Definition of_Z (z : Z) : float :=
  if (z <? 0)%Z then PrimFloat.opp (PrimFloat.of_uint63 (Uint63.of_Z (- z)))
  else PrimFloat.of_uint63 (Uint63.of_Z z).

(** A literal is the quotient of two small integers, correctly rounded. *)
Definition literal (q : Q) : float := of_Z (Qnum q) / of_Z (Zpos (Qden q)).

Definition complex : Type := (float * float)%type.

Definition add (z w : complex) : complex := (fst z + fst w, snd z + snd w).
Definition sub (z w : complex) : complex := (fst z - fst w, snd z - snd w).
Definition mul (z w : complex) : complex :=
  (fst z * fst w - snd z * snd w, fst z * snd w + snd z * fst w).
Definition div (z w : complex) : complex :=
  let d := fst w * fst w + snd w * snd w in
  ((fst z * fst w + snd z * snd w) / d, (snd z * fst w - fst z * snd w) / d).
Definition neg (z : complex) : complex := (- fst z, - snd z).
Definition scale (x : float) (z : complex) : complex := (x * fst z, x * snd z).
Definition divr (z : complex) (x : float) : complex := (fst z / x, snd z / x).
Definition conj (z : complex) : complex := (fst z, - snd z).
Definition modulus (z : complex) : float :=
  PrimFloat.sqrt (fst z * fst z + snd z * snd z).

(** The principal square root. *)
Definition sqrt (z : complex) : complex :=
  if PrimFloat.eqb (fst z) 0 && PrimFloat.eqb (snd z) 0 then (0, snd z)
  else
    let t := PrimFloat.sqrt ((PrimFloat.abs (fst z) + modulus z) / 2) in
    if PrimFloat.leb 0 (fst z) then (t, snd z / (2 * t))
    else (PrimFloat.abs (snd z) / (2 * t), if PrimFloat.ltb (snd z) 0 then - t else t).

Fixpoint cbrt_newton (n : nat) (z w : complex) : complex :=
  match n with
  | O => w
  | S n' => cbrt_newton n' z (divr (add (scale 2 w) (div z (mul w w))) 3)
  end.

(** The principal cube root: Newton's iteration for [w^3 = z], started at
    the principal fourth root of [z]. *)
Definition pow_third (z : complex) : complex :=
  if PrimFloat.eqb (fst z) 0 && PrimFloat.eqb (snd z) 0 then (0, 0)
  else cbrt_newton 60 z (sqrt (sqrt z)).

Definition is_finite (x : float) : bool := PrimFloat.ltb (PrimFloat.abs x) infinity.

#[export] Instance scalar : Scalar float complex := {|
  lit := literal;
  fsub := PrimFloat.sub;
  fmul := PrimFloat.mul;
  fsqrt := PrimFloat.sqrt;
  fabs := PrimFloat.abs;
  flt := PrimFloat.ltb;
  fle := PrimFloat.leb;
  feqb := PrimFloat.eqb;
  isfinite := is_finite;
  cmk := fun x y => (x, y);
  re := fst;
  im := snd;
  cadd := add;
  csub := sub;
  cmul := mul;
  cdiv := div;
  cneg := neg;
  cscale := scale;
  cdivr := divr;
  cconj := conj;
  cabs := modulus;
  csqrt := sqrt;
  cpow_third := pow_third
|}.

(** The default tolerance is taken to be 1e-6, the value that the
    documentation comments of the solvers name. *)
#[export] Instance constants : Constants float := {| EPS := literal (1 # 1000000) |}.

(** A polynomial with real coefficients, constant term first. *)
Definition real_poly (cs : list Q) : Polynomial :=
  mkPolynomial (map (fun q => (literal q, 0)) cs).

(** *** Inputs on which the code is run below *)

Definition tolerance6 : float := literal (1 # 1000000).

(** Every draw of [dist(mt)] is 1.0, a value of the range [0.9, 1.1). *)
Definition unit_draws : nat -> float := fun _ => 1.
Definition unit_device : nat -> nat -> float := fun _ => unit_draws.

(** (x - 1)(x - 2)(x - 3)(x - 4) *)
Definition quartic : Polynomial := real_poly [24; -50; 35; -10; 1]%Q.

(** x^4 - 1 *)
Definition x4_minus_1 : Polynomial := real_poly [-1; 0; 0; 0; 1]%Q.

(** x^2 + 1 *)
Definition x2_plus_1 : Polynomial := real_poly [1; 0; 1]%Q.


(** The roots of [quartic] as the switch of [polysolve] finds them, and as
    [polysolve] returns them. *)
Definition quartic_found : list complex :=
  Eval vm_compute in
    match polysolve_roots quartic tolerance6 100 unit_device with
    | Value found => found
    | _ => []
    end.

Definition quartic_sorted : list complex :=
  Eval vm_compute in
    match polysolve RT_complex quartic tolerance6 100 unit_device with
    | Value out => out
    | _ => []
    end.

(** The first root that [laguerre] extracts from [quartic], and the same
    root after polishing. *)
Definition quartic_root : complex :=
  Eval vm_compute in
    match laguerre quartic (0, 0) tolerance6 100 unit_draws with
    | Value root => root
    | _ => (0, 0)
    end.

Definition quartic_polished : complex :=
  Eval vm_compute in
    match newt tolerance6 100 quartic quartic_root with
    | Value (Some polished) => polished
    | _ => (0, 0)
    end.

(** The state of the loop of [polysolve] after its pass on [quartic]. *)
Definition quartic_deflated : LoopState :=
  Eval vm_compute in
    match deflation_pass tolerance6 100 unit_device (initial_state quartic) with
    | Value st => st
    | _ => initial_state quartic
    end.

(** x^4, the cubic (x - 1)(x - 2)(x - 3), x + 1 and 0 x^2 + x + 1 *)
Definition x4 : Polynomial := real_poly [0; 0; 0; 0; 1]%Q.
Definition cubic123 : Polynomial := real_poly [-6; 11; -6; 1]%Q.
Definition x_plus_1 : Polynomial := real_poly [1; 1]%Q.
Definition flat_quadratic : Polynomial := real_poly [1; 1; 0]%Q.

(** The real roots that [polysolve] returns for [quartic]. *)
Definition quartic_real : list float :=
  Eval vm_compute in
    match polysolve RT_real quartic tolerance6 100 unit_device with
    | Value out => out
    | _ => []
    end.

(** x^2 + 1 and x^2 - 3x + 2 with coefficients of type double *)
Definition real_x2_plus_1 : OnReals.RealPolynomial :=
  OnReals.mkRealPolynomial [1; 0; 1].
Definition real_x2_minus_3x_plus_2 : OnReals.RealPolynomial :=
  OnReals.mkRealPolynomial [2; -3; 1].

(** 2^1000 x^4 + 2^-19 x + 2^-10, and the tolerance 1e-3: the value at 0
    is below the tolerance, and the Newton step from 0 leads to -512, where
    the leading term overflows. *)
Definition tolerance3 : float := literal (1 # 1000).
Definition steep_quartic : Polynomial :=
  mkPolynomial [(0x1p-10, 0); (0x1p-19, 0); (0, 0); (0, 0); (0x1p1000, 0)].

End Binary64.

(** * Properties *)

Unset Implicit Arguments.

Section Properties.

Context {F C : Type} {ops : Scalar F C} {consts : Constants F}.

Local Open Scope outcome_scope.

(** ** Results *)

Lemma bind_value {A B : Type} (x : outcome A) (k : A -> outcome B) (b : B) :
  bind x k = Value b -> exists a, x = Value a /\ k a = Value b.
Proof.
  destruct x as [a | e | e |]; simpl; intro H; try discriminate.
  exists a. split; [reflexivity | exact H].
Qed.

Lemma expect_value {A : Type} (x : outcome A) (e : NumerixxError) (a : A) :
  expect x e = Value a -> x = Value a.
Proof.
  destruct x; simpl; intro H; try discriminate. exact H.
Qed.

(** ** The modelled Polynomial operations *)

Lemma synthetic_length (cs : list C) (r : C) :
  length (synthetic cs r) = length cs.
Proof.
  induction cs as [| a t IH]; simpl.
  - reflexivity.
  - destruct (synthetic t r) as [| b bs] eqn:E; simpl in *; rewrite <- IH; reflexivity.
Qed.

Lemma order_deflate (p : Polynomial) (r : C) :
  order (deflate p r) = (order p - 1)%nat.
Proof.
  unfold order, deflate; simpl.
  pose proof (synthetic_length (coefficients p) r) as H.
  destruct (synthetic (coefficients p) r); simpl in *; rewrite <- H; simpl; lia.
Qed.

(** ** std::sort as modelled *)

Lemma insert_by_perm (comp : C -> C -> bool) (x : C) (l : list C) :
  Permutation (x :: l) (insert_by comp x l).
Proof.
  induction l as [| y t IH]; simpl.
  - apply Permutation_refl.
  - destruct (comp x y).
    + apply Permutation_refl.
    + eapply perm_trans; [apply perm_swap | apply perm_skip, IH].
Qed.

Lemma std_sort_perm (comp : C -> C -> bool) (l : list C) :
  Permutation l (std_sort comp l).
Proof.
  induction l as [| x t IH]; simpl.
  - apply perm_nil.
  - eapply perm_trans; [apply perm_skip, IH | apply insert_by_perm].
Qed.

Section SortedByComparison.

Variable comp : C -> C -> bool.
Variable dom : list C.
Hypothesis comp_irrefl : forall a, In a dom -> comp a a = false.
Hypothesis comp_trans : forall a b c,
  In a dom -> In b dom -> In c dom ->
  comp a b = true -> comp b c = true -> comp a c = true.



End SortedByComparison.



(** ** impl::sortRoots *)

Lemma positive_guard (tolerance : F) :
  positive tolerance -> fle tolerance (lit 0%Q) = false.
Proof.
  intros [_ H]. exact H.
Qed.

Lemma sortRoots_complex (roots : list C) (tolerance : F) :
  fle tolerance (lit 0%Q) = false ->
  sortRoots RT_complex roots tolerance =
  Value (std_sort (sortingFunc (fsqrt tolerance)) roots).
Proof.
  unfold sortRoots. intros ->. reflexivity.
Qed.

Lemma sortRoots_real (roots : list C) (tolerance : F) :
  fle tolerance (lit 0%Q) = false ->
  sortRoots RT_real roots tolerance =
  Value (map re (std_sort (sortingFunc (fsqrt tolerance))
                   (filter (fun elem => negb (not_real (fsqrt tolerance) elem)) roots))).
Proof.
  unfold sortRoots. intros ->. reflexivity.
Qed.

Lemma sortRoots_complex_length (roots out : list C) (tolerance : F) :
  sortRoots RT_complex roots tolerance = Value out -> length out = length roots.
Proof.
  unfold sortRoots. destruct (fle tolerance (lit 0%Q)); [discriminate |].
  intro H. injection H as <-.
  symmetry. apply Permutation_length, std_sort_perm.
Qed.


(** ** Configuration errors *)

(** C5.  With a tolerance <= 0 or fewer than one iteration allowed,
    [polysolve] and [laguerre] throw the configuration error of the guard
    that fails, whatever the polynomial, the guess and the random numbers
    are: no root is computed.  [polysolve] throws likewise for a polynomial
    of order < 1. *)
Theorem configuration_errors_are_thrown
    (rt : ReturnType) (poly : Polynomial) (guess : C) (tolerance : F)
    (max_iterations : Z) (random_device : nat -> nat -> F) (dist : nat -> F) :
  fle tolerance (lit 0%Q) = true \/ max_iterations < 1 ->
  (polysolve rt poly tolerance max_iterations random_device = Throw InvalidTolerance \/
   polysolve rt poly tolerance max_iterations random_device = Throw InvalidMaxIterations) /\
  (laguerre poly guess tolerance max_iterations dist = Throw InvalidTolerance \/
   laguerre poly guess tolerance max_iterations dist = Throw InvalidMaxIterations) /\
  (forall (poly0 : Polynomial) (tolerance0 : F) (max_iterations0 : Z),
     (order poly0 < 1)%nat ->
     exists e, polysolve rt poly0 tolerance0 max_iterations0 random_device = Throw e /\
               In e [InvalidTolerance; InvalidMaxIterations; TooFewCoefficients]).
Proof.
  intro H. unfold polysolve, laguerre, laguerre_run.
  repeat split.
  - destruct (fle tolerance (lit 0%Q)); [left; reflexivity |].
    destruct H as [H | H]; [discriminate |].
    apply Z.ltb_lt in H. rewrite H. right; reflexivity.
  - destruct (fle tolerance (lit 0%Q)); [left; reflexivity |].
    destruct H as [H | H]; [discriminate |].
    apply Z.ltb_lt in H. rewrite H. right; reflexivity.
  - intros poly0 tolerance0 max_iterations0 Hord.
    destruct (fle tolerance0 (lit 0%Q)); [eexists; split; [reflexivity | simpl; tauto] |].
    destruct (max_iterations0 <? 1); [eexists; split; [reflexivity | simpl; tauto] |].
    apply Nat.ltb_lt in Hord. rewrite Hord.
    eexists; split; [reflexivity | simpl; tauto].
Qed.

(** ** Termination of laguerre *)

(** The root at which the loop of [laguerre] may stop: the residual or the
    step is below the tolerance. *)
Lemma laguerre_loop_total (poly d1poly d2poly : Polynomial) (tolerance : F)
    (max_iterations : Z) (dist : nat -> F) :
  forall (fuel : nat) (i : Z) (root : C) (drawn : nat),
    0 <= i ->
    (Z.to_nat (max_iterations - i) < fuel)%nat ->
    laguerre_loop poly d1poly d2poly tolerance max_iterations dist fuel i root drawn
      = Unexpected MaxIterationsReached \/
    exists n r,
      laguerre_loop poly d1poly d2poly tolerance max_iterations dist fuel i root drawn
        = Value (n, r) /\
      i <= n < max_iterations /\
      (flt (cabs (eval poly r)) tolerance = true \/
       flt (cabs (laguerre_step poly d1poly d2poly r)) tolerance = true).
Proof.
  induction fuel as [| fuel IH]; intros i root drawn Hi Hfuel.
  - lia.
  - simpl. destruct (max_iterations <=? i) eqn:Hmax; [left; reflexivity |].
    apply Z.leb_gt in Hmax.
    destruct (flt (cabs (eval poly root)) tolerance) eqn:Hres.
    { right. exists i, root. repeat split; try lia. left; exact Hres. }
    destruct (flt (cabs (laguerre_step poly d1poly d2poly root)) tolerance) eqn:Hstep.
    { right. exists i, root. repeat split; try lia. right; exact Hstep. }
    assert (Hnext : (Z.to_nat (max_iterations - (i + 1)) < fuel)%nat) by lia.
    destruct (Z.rem i 10 =? 0).
    + destruct (IH (i + 1) (csub root (c_of_real (dist drawn))) (S drawn)
                  ltac:(lia) Hnext) as [H | (n & r & H & Hn & Hc)].
      * left; exact H.
      * right. exists n, r. repeat split; try lia; assumption.
    + destruct (IH (i + 1) (csub root (laguerre_step poly d1poly d2poly root)) drawn
                  ltac:(lia) Hnext) as [H | (n & r & H & Hn & Hc)].
      * left; exact H.
      * right. exists n, r. repeat split; try lia; assumption.
Qed.

(** C6.  For a positive tolerance and at least one iteration allowed,
    [laguerre] rejects a polynomial of order <= 3 with an error before it
    iterates, and on a polynomial of order >= 4 it ends: either with the
    failure "Maximum number of iterations reached." or, after fewer than
    [max_iterations] iterations, with a root whose residual or whose step is
    below the tolerance.  It never runs out of fuel. *)
Theorem laguerre_terminates (poly : Polynomial) (guess : C) (tolerance : F)
    (max_iterations : Z) (dist : nat -> F) :
  positive tolerance ->
  1 <= max_iterations ->
  if (order poly <=? 3)%nat
  then laguerre poly guess tolerance max_iterations dist = Throw OrderBelowFour
  else
    (laguerre_run poly guess tolerance max_iterations dist
       = Unexpected MaxIterationsReached /\
     laguerre poly guess tolerance max_iterations dist
       = Unexpected MaxIterationsReached) \/
    (exists n root,
       laguerre_run poly guess tolerance max_iterations dist = Value (n, root) /\
       laguerre poly guess tolerance max_iterations dist = Value root /\
       0 <= n < max_iterations /\
       (flt (cabs (eval poly root)) tolerance = true \/
        flt (cabs (laguerre_step poly (derivativeOf poly)
                     (derivativeOf (derivativeOf poly)) root)) tolerance = true)).
Proof.
  intros Htol Hmax. apply positive_guard in Htol.
  assert (Hlt : (max_iterations <? 1) = false) by (apply Z.ltb_ge; lia).
  unfold laguerre, laguerre_run. rewrite Htol, Hlt.
  destruct (order poly <=? 3)%nat; [reflexivity |].
  destruct (flt (cabs (eval poly guess)) tolerance) eqn:Hres.
  - right. exists 0, guess. simpl. repeat split; try lia. left; exact Hres.
  - destruct (laguerre_loop_total poly (derivativeOf poly)
                (derivativeOf (derivativeOf poly)) tolerance max_iterations dist
                (S (Z.to_nat max_iterations)) 0 guess 0)
      as [H | (n & r & H & Hn & Hc)]; try lia.
    + left. rewrite H. split; reflexivity.
    + right. exists n, r. rewrite H. simpl. repeat split; try lia; assumption.
Qed.

(** ** The quadratic solver *)

(** X11.  On an order-2 polynomial [a x^2 + b x + c] with complex
    coefficients (the instantiation that [polysolve] calls) and a positive
    tolerance, [quadratic] forms q = -1/2 (b + s) where s is the complex
    sqrt(D), D = b^2 - 4ac, taken with the sign + when conj(b) sqrt(D) has
    a non-negative real part and with the sign - otherwise; it reports
    "Quadratic polynomial is ill formed." when |q| or |a| is below the
    tolerance, and otherwise returns the two roots q/a and c/q (sorted; both
    of them on a complex request). *)
Theorem quadratic_ill_formed_or_two_roots (rt : ReturnType) (poly : Polynomial)
    (tolerance : F) :
  positive tolerance ->
  order poly = 2%nat ->
  let a : C := coeff poly 2 in
  let b : C := coeff poly 1 in
  let c : C := coeff poly 0 in
  let sqrtD : C := csqrt (csub (cmul b b) (cmul (cscale (lit 4%Q) a) c)) in
  let s : C := if fle (lit 0%Q) (re (cmul (cconj b) sqrtD)) then sqrtD else cneg sqrtD in
  let q : C := cscale (lit (-0.5)%Q) (cadd b s) in
  (flt (cabs q) tolerance = true \/ flt (cabs a) tolerance = true ->
   quadratic rt poly tolerance = Unexpected QuadraticIllFormed) /\
  (flt (cabs q) tolerance = false -> flt (cabs a) tolerance = false ->
   quadratic rt poly tolerance = sortRoots rt [cdiv q a; cdiv c q] tolerance /\
   exists out,
     quadratic RT_complex poly tolerance = Value out /\
     Permutation [cdiv q a; cdiv c q] out).
Proof.
  intros Htol Hord a b c sqrtD s q.
  assert (Hq : quadratic_q a b c = q) by reflexivity.
  apply positive_guard in Htol.
  unfold quadratic. rewrite Htol, Hord. simpl negb. cbv iota.
  fold a b c. rewrite Hq.
  split.
  - intros [H | H]; rewrite H; [reflexivity | rewrite orb_true_r; reflexivity].
  - intros H1 H2. rewrite H1, H2. simpl orb. cbv iota.
    split; [reflexivity |].
    exists (std_sort (sortingFunc (fsqrt tolerance)) [cdiv q a; cdiv c q]).
    split; [apply sortRoots_complex, Htol | apply std_sort_perm].
Qed.

(** ** The deflation loop of polysolve *)

Lemma initial_state_eq (poly : @Polynomial C) :
  initial_state poly = mkLoopState poly poly [].
Proof.
  destruct poly; reflexivity.
Qed.

(** What a pass does once Laguerre's and Newton's iterations have
    succeeded. *)
Lemma deflation_pass_polished (tolerance : F) (max_iterations : Z)
    (random_device : nat -> nat -> F) (st : LoopState) (root polished : C) :
  laguerre (polynomial st) (c_of_real (lit 0%Q)) tolerance max_iterations
    (random_device (length (roots st))) = Value root ->
  newt tolerance max_iterations (original st) root = Value (Some polished) ->
  deflation_pass tolerance max_iterations random_device st =
  if finite_on (original st) polished
  then Value (mkLoopState (deflate (polynomial st) polished) (original st)
                (roots st ++ [polished]))
  else Unexpected RootNotFinite.
Proof.
  intros Hl Hn. unfold deflation_pass. rewrite Hl. simpl.
  rewrite last_last, Hn. simpl.
  rewrite removelast_last, last_last.
  unfold finite_on.
  destruct (isfinite (re (eval (original st) polished)));
    destruct (isfinite (im (eval (original st) polished))); reflexivity.
Qed.

Lemma deflation_pass_value (tolerance : F) (max_iterations : Z)
    (random_device : nat -> nat -> F) (st st' : LoopState) :
  deflation_pass tolerance max_iterations random_device st = Value st' ->
  exists root polished,
    laguerre (polynomial st) (c_of_real (lit 0%Q)) tolerance max_iterations
      (random_device (length (roots st))) = Value root /\
    newt tolerance max_iterations (original st) root = Value (Some polished) /\
    finite_on (original st) polished = true /\
    st' = mkLoopState (deflate (polynomial st) polished) (original st)
            (roots st ++ [polished]).
Proof.
  intro H.
  destruct (laguerre (polynomial st) (c_of_real (lit 0%Q)) tolerance max_iterations
              (random_device (length (roots st)))) as [root | e | e |] eqn:Hl;
    try (unfold deflation_pass in H; rewrite Hl in H; simpl in H; discriminate).
  destruct (newt tolerance max_iterations (original st) root) as [[polished |] | e | e |] eqn:Hn;
    try (unfold deflation_pass in H; rewrite Hl in H; simpl in H;
         rewrite last_last, Hn in H; simpl in H; discriminate).
  rewrite (deflation_pass_polished tolerance max_iterations random_device st root polished Hl Hn) in H.
  exists root, polished.
  destruct (finite_on (original st) polished); [| discriminate].
  injection H as <-. repeat split; reflexivity || assumption.
Qed.

Lemma passes_frame (tolerance : F) (max_iterations : Z)
    (random_device : nat -> nat -> F) (n : nat) (st st' : LoopState) :
  passes tolerance max_iterations random_device n st st' ->
  original st' = original st /\
  (order (polynomial st') + n = order (polynomial st))%nat /\
  exists extracted,
    roots st' = roots st ++ extracted /\ length extracted = n /\
    polynomial st' = deflated_by (polynomial st) extracted.
Proof.
  induction 1 as [st | n st st1 st2 Hord Hpass Hrest IH].
  - repeat split; [lia |]. exists []. rewrite app_nil_r. repeat split.
  - destruct (deflation_pass_value _ _ _ _ _ Hpass)
      as (root & polished & _ & _ & _ & ->).
    simpl in IH. destruct IH as (Ho & Hn & extracted & Hr & Hlen & Hp).
    rewrite order_deflate in Hn.
    repeat split; [exact Ho | lia |].
    exists (polished :: extracted).
    rewrite Hr, <- app_assoc. simpl. repeat split; [lia | exact Hp].
Qed.

Lemma deflation_loop_unroll (tolerance : F) (max_iterations : Z)
    (random_device : nat -> nat -> F) (n : nat) (st st' : LoopState) :
  passes tolerance max_iterations random_device n st st' ->
  forall fuel,
    deflation_loop tolerance max_iterations random_device (n + fuel) st =
    deflation_loop tolerance max_iterations random_device fuel st'.
Proof.
  induction 1 as [st | n st st1 st2 Hord Hpass Hrest IH]; intro fuel.
  - reflexivity.
  - apply Nat.ltb_lt in Hord. simpl. rewrite Hord, Hpass. simpl. apply IH.
Qed.

Lemma deflation_loop_value (tolerance : F) (max_iterations : Z)
    (random_device : nat -> nat -> F) :
  forall (fuel : nat) (st st' : LoopState),
    deflation_loop tolerance max_iterations random_device fuel st = Value st' ->
    exists n,
      passes tolerance max_iterations random_device n st st' /\
      (order (polynomial st') <= 3)%nat.
Proof.
  induction fuel as [| fuel IH]; intros st st' H.
  - simpl in H. destruct (3 <? order (polynomial st))%nat eqn:Hord; [discriminate |].
    injection H as <-. apply Nat.ltb_ge in Hord.
    exists 0%nat. split; [constructor | exact Hord].
  - simpl in H. destruct (3 <? order (polynomial st))%nat eqn:Hord.
    + apply bind_value in H. destruct H as (st1 & Hpass & Hrest).
      destruct (IH _ _ Hrest) as (n & Hn & Hfinal).
      exists (S n). split; [| exact Hfinal].
      apply Nat.ltb_lt in Hord. econstructor; eassumption.
    + injection H as <-. apply Nat.ltb_ge in Hord.
      exists 0%nat. split; [constructor | exact Hord].
Qed.

Lemma cubic_complex_value (p : Polynomial) (tolerance : F) (cub : list C) :
  cubic RT_complex p tolerance = Value cub ->
  order p = 3%nat /\ length cub = 3%nat.
Proof.
  unfold cubic.
  destruct (fle tolerance (lit 0%Q)) eqn:Htol; [discriminate |].
  destruct (order p =? 3)%nat eqn:Hord; simpl; [| discriminate].
  intro H. apply sortRoots_complex_length in H.
  apply Nat.eqb_eq in Hord. split; [exact Hord | exact H].
Qed.

(** The [default] case of the switch, taken apart. *)
Lemma polysolve_roots_higher (poly : Polynomial) (tolerance : F) (max_iterations : Z)
    (random_device : nat -> nat -> F) (found : list C) :
  (4 <= order poly)%nat ->
  polysolve_roots poly tolerance max_iterations random_device = Value found ->
  exists st cub,
    passes tolerance max_iterations random_device (order poly - 3)
      (initial_state poly) st /\
    order (polynomial st) = 3%nat /\
    cubic RT_complex (polynomial st) EPS = Value cub /\
    found = roots st ++ cub.
Proof.
  intros Hord H. unfold polysolve_roots in H.
  destruct (order poly) as [| [| [| [| m]]]] eqn:Ho; try lia.
  fold (initial_state poly) in H.
  apply bind_value in H. destruct H as (st & Hloop & H).
  apply bind_value in H. destruct H as (cub & Hcub & H).
  apply expect_value in Hcub. injection H as <-.
  destruct (deflation_loop_value _ _ _ _ _ _ Hloop) as (n & Hn & _).
  destruct (cubic_complex_value _ _ _ Hcub) as [H3 _].
  destruct (passes_frame _ _ _ _ _ _ Hn) as (_ & Hsum & _).
  assert (Hinit : order (polynomial (initial_state poly)) = order poly) by reflexivity.
  rewrite Hinit, H3, Ho in Hsum.
  exists st, cub. repeat split; try assumption.
  replace (S (S (S (S m))) - 3)%nat with n by lia. exact Hn.
Qed.

Lemma passes_snoc (tolerance : F) (max_iterations : Z)
    (random_device : nat -> nat -> F) (n : nat) (st st1 st2 : LoopState) :
  passes tolerance max_iterations random_device n st st1 ->
  (3 < order (polynomial st1))%nat ->
  deflation_pass tolerance max_iterations random_device st1 = Value st2 ->
  passes tolerance max_iterations random_device (S n) st st2.
Proof.
  induction 1 as [st | n st sta stb Hord Hpass Hrest IH]; intros Hord1 Hpass1.
  - econstructor; [exact Hord1 | exact Hpass1 | constructor].
  - econstructor; [exact Hord | exact Hpass | apply IH; assumption].
Qed.



(** A failing pass ends the whole call: the failure of the pass is what
    [polysolve] returns. *)
Lemma polysolve_pass_fails (rt : ReturnType) (poly : Polynomial)
    (tolerance : F) (max_iterations : Z) (random_device : nat -> nat -> F)
    (n : nat) (st : LoopState) (e : NumerixxError) :
  fle tolerance (lit 0%Q) = false ->
  1 <= max_iterations ->
  passes tolerance max_iterations random_device n (initial_state poly) st ->
  (3 < order (polynomial st))%nat ->
  deflation_pass tolerance max_iterations random_device st = Unexpected e ->
  polysolve rt poly tolerance max_iterations random_device = Unexpected e.
Proof.
  intros Htol Hmax Hpasses Hord Hpass.
  destruct (passes_frame _ _ _ _ _ _ Hpasses) as (_ & Hsum & _).
  assert (Hinit : order (polynomial (initial_state poly)) = order poly) by reflexivity.
  rewrite Hinit in Hsum.
  unfold polysolve. rewrite Htol.
  replace (max_iterations <? 1) with false by (symmetry; apply Z.ltb_ge; lia).
  replace (order poly <? 1)%nat with false by (symmetry; apply Nat.ltb_ge; lia).
  unfold polysolve_roots.
  destruct (order poly) as [| [| [| [| m]]]] eqn:Ho; try lia.
  fold (initial_state poly).
  replace (S (S (S (S m)))) with (n + order (polynomial st))%nat by lia.
  rewrite (deflation_loop_unroll _ _ _ _ _ _ Hpasses).
  destruct (order (polynomial st)) as [| k] eqn:Hk; [lia |].
  simpl deflation_loop. rewrite Hk.
  replace (3 <? S k)%nat with true by (symmetry; apply Nat.ltb_lt; lia).
  rewrite Hpass. reflexivity.
Qed.

(** ** The tolerance and the analytic solvers *)

(** C9.  On a polynomial of order 1, 2 or 3, the roots that [polysolve]
    holds before the final sort are those of the analytic solver called
    with the default tolerance [EPS]: they are the same for any two
    positive tolerances (and iteration bounds and random numbers), and the
    caller's tolerance enters the result through the final [sortRoots]
    only.  After a deflation loop, the residual cubic is solved with [EPS]
    as well: two runs whose loops end on the same working polynomial append
    the same three roots. *)
Theorem analytic_solvers_ignore_tolerance (rt : ReturnType) (poly : Polynomial)
    (tolerance1 tolerance2 : F) (max_iterations1 max_iterations2 : Z)
    (random_device1 random_device2 : nat -> nat -> F) :
  (1 <= order poly <= 3)%nat ->
  positive tolerance1 -> positive tolerance2 ->
  1 <= max_iterations1 -> 1 <= max_iterations2 ->
  polysolve_roots poly tolerance1 max_iterations1 random_device1 =
    polysolve_roots poly tolerance2 max_iterations2 random_device2 /\
  polysolve_roots poly tolerance1 max_iterations1 random_device1 =
    match order poly with
    | 1%nat => expect (linear RT_complex poly EPS) LinearNoSolution
    | 2%nat => expect (quadratic RT_complex poly EPS) QuadraticNoSolution
    | _ => expect (cubic RT_complex poly EPS) CubicNoSolution
    end /\
  polysolve rt poly tolerance1 max_iterations1 random_device1 =
    bind (polysolve_roots poly tolerance2 max_iterations2 random_device2)
         (fun found => sortRoots rt found tolerance1) /\
  (forall (poly1 poly2 : Polynomial) (st1 st2 : LoopState) (found1 found2 : list C),
     (4 <= order poly1)%nat -> (4 <= order poly2)%nat ->
     deflation_loop tolerance1 max_iterations1 random_device1 (order poly1)
       (initial_state poly1) = Value st1 ->
     deflation_loop tolerance2 max_iterations2 random_device2 (order poly2)
       (initial_state poly2) = Value st2 ->
     polynomial st1 = polynomial st2 ->
     polysolve_roots poly1 tolerance1 max_iterations1 random_device1 = Value found1 ->
     polysolve_roots poly2 tolerance2 max_iterations2 random_device2 = Value found2 ->
     exists cub, found1 = roots st1 ++ cub /\ found2 = roots st2 ++ cub).
Proof.
  intros Hord Htol1 Htol2 Hmax1 Hmax2.
  assert (Hswitch : forall tolerance max_iterations random_device,
             polysolve_roots poly tolerance max_iterations random_device =
             match order poly with
             | 1%nat => expect (linear RT_complex poly EPS) LinearNoSolution
             | 2%nat => expect (quadratic RT_complex poly EPS) QuadraticNoSolution
             | _ => expect (cubic RT_complex poly EPS) CubicNoSolution
             end).
  { intros tolerance max_iterations random_device. unfold polysolve_roots.
    destruct poly as [cs]. simpl coefficients.
    destruct (order (mkPolynomial cs)) as [| [| [| [| m]]]]; try lia;
      match goal with
      | |- bind ?x _ = _ => destruct x; reflexivity
      end. }
  split; [rewrite (Hswitch tolerance1), (Hswitch tolerance2); reflexivity |].
  split; [apply Hswitch |].
  split.
  - unfold polysolve. apply positive_guard in Htol1. rewrite Htol1.
    replace (max_iterations1 <? 1) with false by (symmetry; apply Z.ltb_ge; lia).
    replace (order poly <? 1)%nat with false by (symmetry; apply Nat.ltb_ge; lia).
    rewrite (Hswitch tolerance1), (Hswitch tolerance2). reflexivity.
  - intros poly1 poly2 st1 st2 found1 found2 Ho1 Ho2 Hl1 Hl2 Hsame H1 H2.
    unfold polysolve_roots in H1, H2.
    destruct (order poly1) as [| [| [| [| m1]]]] eqn:E1; try lia.
    destruct (order poly2) as [| [| [| [| m2]]]] eqn:E2; try lia.
    fold (initial_state poly1) in H1. fold (initial_state poly2) in H2.
    rewrite Hl1 in H1. rewrite Hl2 in H2. simpl in H1, H2.
    rewrite <- Hsame in H2.
    apply bind_value in H1. destruct H1 as (cub1 & Hc1 & H1).
    apply bind_value in H2. destruct H2 as (cub2 & Hc2 & H2).
    rewrite Hc1 in Hc2. injection Hc2 as <-.
    injection H1 as <-. injection H2 as <-.
    exists cub1. split; reflexivity.
Qed.

(** ** The number of roots *)

Lemma polysolve_roots_length (poly : Polynomial) (tolerance : F) (max_iterations : Z)
    (random_device : nat -> nat -> F) (found : list C) :
  (1 <= order poly)%nat ->
  polysolve_roots poly tolerance max_iterations random_device = Value found ->
  length found = order poly.
Proof.
  intros Hord H.
  destruct (le_lt_dec 4 (order poly)) as [Hhigh | Hlow].
  - destruct (polysolve_roots_higher _ _ _ _ _ Hhigh H)
      as (st & cub & Hpasses & _ & Hcub & ->).
    destruct (passes_frame _ _ _ _ _ _ Hpasses) as (_ & _ & extracted & Hr & Hlen & _).
    destruct (cubic_complex_value _ _ _ Hcub) as [_ Hc].
    rewrite Hr, !length_app, Hlen, Hc. simpl. lia.
  - unfold polysolve_roots in H.
    destruct (order poly) as [| [| [| [| m]]]] eqn:Ho; try lia;
      apply bind_value in H; destruct H as (rs & Hrs & H);
      apply expect_value in Hrs; injection H as <-; simpl.
    + unfold linear in Hrs.
      destruct (fle EPS (lit 0%Q)); [discriminate |].
      destruct (negb _); [discriminate |].
      apply sortRoots_complex_length in Hrs. exact Hrs.
    + unfold quadratic in Hrs.
      destruct (fle EPS (lit 0%Q)); [discriminate |].
      destruct (negb _); [discriminate |].
      destruct (_ || _); [discriminate |].
      apply sortRoots_complex_length in Hrs. exact Hrs.
    + apply cubic_complex_value in Hrs. apply Hrs.
Qed.

(** C10.  When [polysolve] succeeds with complex output on a polynomial of
    order n, the returned sequence is a rearrangement of the roots found by
    the switch, and it has exactly n elements: the final sort drops
    none. *)
Theorem polysolve_complex_root_count (poly : Polynomial) (tolerance : F)
    (max_iterations : Z) (random_device : nat -> nat -> F) (out : list C) :
  polysolve RT_complex poly tolerance max_iterations random_device = Value out ->
  (1 <= order poly)%nat /\
  length out = order poly /\
  exists found,
    polysolve_roots poly tolerance max_iterations random_device = Value found /\
    Permutation found out /\
    (4 <= order poly ->
     exists extracted cub,
       found = extracted ++ cub /\
       length extracted = order poly - 3 /\ length cub = 3)%nat.
Proof.
  unfold polysolve. intro H.
  destruct (fle tolerance (lit 0%Q)) eqn:Htol; [discriminate |].
  destruct (max_iterations <? 1); [discriminate |].
  destruct (order poly <? 1)%nat eqn:Hord; [discriminate |].
  apply Nat.ltb_ge in Hord.
  apply bind_value in H. destruct H as (found & Hfound & Hsort).
  split; [exact Hord |].
  split.
  - rewrite (sortRoots_complex_length _ _ _ Hsort).
    apply (polysolve_roots_length _ _ _ _ _ Hord Hfound).
  - exists found. split; [exact Hfound |]. split.
    + rewrite (sortRoots_complex found tolerance Htol) in Hsort.
      injection Hsort as <-. apply std_sort_perm.
    + intro Hhigh.
      destruct (polysolve_roots_higher _ _ _ _ _ Hhigh Hfound)
        as (st & cub & Hpasses & _ & Hcub & ->).
      destruct (passes_frame _ _ _ _ _ _ Hpasses)
        as (_ & _ & extracted & Hr & Hlen & _).
      exists (roots st), cub. repeat split.
      * rewrite Hr. simpl. exact Hlen.
      * apply (cubic_complex_value _ _ _ Hcub).
Qed.

(** ** The perturbation of the Laguerre step *)

(** On an iteration whose counter is a multiple of 10, the root is moved by
    the random number itself: the computed step does not enter the update. *)
Lemma laguerre_loop_tenth_iteration (poly d1poly d2poly : Polynomial) (tolerance : F)
    (max_iterations : Z) (dist : nat -> F) (fuel : nat) (i : Z) (root : C)
    (drawn : nat) :
  i < max_iterations ->
  flt (cabs (eval poly root)) tolerance = false ->
  flt (cabs (laguerre_step poly d1poly d2poly root)) tolerance = false ->
  Z.rem i 10 = 0 ->
  laguerre_loop poly d1poly d2poly tolerance max_iterations dist (S fuel) i root drawn =
  laguerre_loop poly d1poly d2poly tolerance max_iterations dist fuel (i + 1)
    (csub root (c_of_real (dist drawn))) (S drawn).
Proof.
  intros Hi Hres Hstep Hrem. simpl.
  replace (max_iterations <=? i) with false by (symmetry; apply Z.leb_gt; lia).
  rewrite Hres, Hstep, Hrem. reflexivity.
Qed.

(** On the other iterations the computed step is used as it is. *)
Lemma laguerre_loop_other_iteration (poly d1poly d2poly : Polynomial) (tolerance : F)
    (max_iterations : Z) (dist : nat -> F) (fuel : nat) (i : Z) (root : C)
    (drawn : nat) :
  i < max_iterations ->
  flt (cabs (eval poly root)) tolerance = false ->
  flt (cabs (laguerre_step poly d1poly d2poly root)) tolerance = false ->
  Z.rem i 10 <> 0 ->
  laguerre_loop poly d1poly d2poly tolerance max_iterations dist (S fuel) i root drawn =
  laguerre_loop poly d1poly d2poly tolerance max_iterations dist fuel (i + 1)
    (csub root (laguerre_step poly d1poly d2poly root)) drawn.
Proof.
  intros Hi Hres Hstep Hrem. simpl.
  replace (max_iterations <=? i) with false by (symmetry; apply Z.leb_gt; lia).
  rewrite Hres, Hstep.
  replace (Z.rem i 10 =? 0) with false by (symmetry; apply Z.eqb_neq; exact Hrem).
  reflexivity.
Qed.

(** ** Fuel is never exhausted *)

Lemma laguerre_total (poly : Polynomial) (guess : C) (tolerance : F)
    (max_iterations : Z) (dist : nat -> F) :
  laguerre poly guess tolerance max_iterations dist <> OutOfFuel.
Proof.
  unfold laguerre, laguerre_run.
  destruct (fle tolerance (lit 0%Q)); [discriminate |].
  destruct (max_iterations <? 1) eqn:Hmax; [discriminate |].
  destruct (order poly <=? 3)%nat; [discriminate |].
  destruct (flt (cabs (eval poly guess)) tolerance); [discriminate |].
  apply Z.ltb_ge in Hmax.
  destruct (laguerre_loop_total poly (derivativeOf poly)
              (derivativeOf (derivativeOf poly)) tolerance max_iterations dist
              (S (Z.to_nat max_iterations)) 0 guess 0)
    as [H | (n & r & H & _)]; try lia; rewrite H; discriminate.
Qed.

Lemma newt_loop_total (tolerance : F) (max_iterations : Z) (f df : Polynomial) :
  forall (fuel : nat) (i : Z) (x : C),
    0 <= i ->
    (Z.to_nat (max_iterations - i) < fuel)%nat ->
    newt_loop tolerance max_iterations f df fuel i x <> OutOfFuel.
Proof.
  induction fuel as [| fuel IH]; intros i x Hi Hfuel.
  - lia.
  - simpl. destruct (max_iterations <=? i) eqn:Hmax; [discriminate |].
    apply Z.leb_gt in Hmax.
    destruct (flt (cabs (eval df x)) EPS); [discriminate |].
    destruct (_ && _); [discriminate |].
    apply IH; lia.
Qed.

Lemma newt_total (tolerance : F) (max_iterations : Z) (f : Polynomial) (x : C) :
  newt tolerance max_iterations f x <> OutOfFuel.
Proof.
  unfold newt. destruct (Z_lt_le_dec max_iterations 0) as [Hneg | Hpos].
  - simpl. replace (max_iterations <=? 0) with true by (symmetry; apply Z.leb_le; lia).
    discriminate.
  - apply newt_loop_total; lia.
Qed.

Lemma deflation_pass_total (tolerance : F) (max_iterations : Z)
    (random_device : nat -> nat -> F) (st : LoopState) :
  deflation_pass tolerance max_iterations random_device st <> OutOfFuel.
Proof.
  unfold deflation_pass.
  pose proof (laguerre_total (polynomial st) (c_of_real (lit 0%Q)) tolerance
                max_iterations (random_device (length (roots st)))) as Hl.
  destruct (laguerre _ _ _ _ _) as [root | e | e |]; simpl; try discriminate;
    [| contradiction].
  pose proof (newt_total tolerance max_iterations (original st)
                (last (roots st ++ [root]) (c_of_real (lit 0%Q)))) as Hn.
  destruct (newt _ _ _ _) as [[polished |] | e | e |]; simpl; try discriminate;
    [| contradiction].
  destruct (_ || _); discriminate.
Qed.

Lemma deflation_loop_total (tolerance : F) (max_iterations : Z)
    (random_device : nat -> nat -> F) :
  forall (fuel : nat) (st : LoopState),
    (order (polynomial st) <= fuel + 3)%nat ->
    deflation_loop tolerance max_iterations random_device fuel st <> OutOfFuel.
Proof.
  induction fuel as [| fuel IH]; intros st Hord; simpl.
  - replace (3 <? order (polynomial st))%nat with false
      by (symmetry; apply Nat.ltb_ge; lia).
    discriminate.
  - destruct (3 <? order (polynomial st))%nat; [| discriminate].
    pose proof (deflation_pass_total tolerance max_iterations random_device st) as Hp.
    destruct (deflation_pass tolerance max_iterations random_device st)
      as [st1 | e | e |] eqn:Hpass; simpl; try discriminate; [| contradiction].
    apply IH.
    destruct (deflation_pass_value _ _ _ _ _ Hpass) as (r & p & _ & _ & _ & ->).
    simpl. rewrite order_deflate. lia.
Qed.

Lemma sortRoots_total (rt : ReturnType) (found : list C) (tolerance : F) :
  sortRoots rt found tolerance <> OutOfFuel.
Proof.
  unfold sortRoots. destruct (fle tolerance (lit 0%Q)); [discriminate |].
  destruct rt; discriminate.
Qed.

Lemma expect_total {A : Type} (x : outcome A) (e : NumerixxError) :
  x <> OutOfFuel -> expect x e <> OutOfFuel.
Proof.
  destruct x; simpl; intro H; try discriminate. contradiction.
Qed.

Lemma bind_total {A B : Type} (x : outcome A) (k : A -> outcome B) :
  x <> OutOfFuel -> (forall a, k a <> OutOfFuel) -> bind x k <> OutOfFuel.
Proof.
  destruct x; simpl; intros H Hk; try discriminate; [apply Hk | contradiction].
Qed.

Lemma cubic_total (rt : ReturnType) (p : Polynomial) (tolerance : F) :
  cubic rt p tolerance <> OutOfFuel.
Proof.
  unfold cubic. destruct (fle tolerance (lit 0%Q)); [discriminate |].
  destruct (negb _); [discriminate | apply sortRoots_total].
Qed.

(** [polysolve] always returns: with roots, with a failure, or by throwing. *)
Lemma polysolve_total (rt : ReturnType) (poly : Polynomial) (tolerance : F)
    (max_iterations : Z) (random_device : nat -> nat -> F) :
  polysolve rt poly tolerance max_iterations random_device <> OutOfFuel.
Proof.
  unfold polysolve.
  destruct (fle tolerance (lit 0%Q)); [discriminate |].
  destruct (max_iterations <? 1); [discriminate |].
  destruct (order poly <? 1)%nat; [discriminate |].
  apply bind_total; [| intro; apply sortRoots_total].
  unfold polysolve_roots.
  destruct (order poly) as [| [| [| [| m]]]] eqn:Ho.
  - apply bind_total; [| intro; apply bind_total; [apply expect_total, cubic_total | discriminate]].
    apply deflation_loop_total. simpl. unfold order in *. simpl. lia.
  - apply bind_total; [apply expect_total | discriminate].
    unfold linear. destruct (fle EPS (lit 0%Q)); [discriminate |].
    destruct (negb _); [discriminate | apply sortRoots_total].
  - apply bind_total; [apply expect_total | discriminate].
    unfold quadratic. destruct (fle EPS (lit 0%Q)); [discriminate |].
    destruct (negb _); [discriminate |].
    destruct (_ || _); [discriminate | apply sortRoots_total].
  - apply bind_total; [apply expect_total, cubic_total | discriminate].
  - apply bind_total; [| intro; apply bind_total; [apply expect_total, cubic_total | discriminate]].
    apply deflation_loop_total. simpl. unfold order in *. simpl. lia.
Qed.

End Properties.

(** * The code run on binary64 inputs *)

Import Binary64.

(** ** x^2 + 1: a conjugate pair *)

Example quadratic_complex_x2_plus_1 :
  quadratic RT_complex x2_plus_1 tolerance6 =
  Value [(PrimFloat.opp 0, PrimFloat.opp 1); (PrimFloat.opp 0, 1%float)].
Proof. vm_compute. reflexivity. Qed.

Example polysolve_complex_x2_plus_1 :
  polysolve RT_complex x2_plus_1 tolerance6 100 unit_device =
  Value [(PrimFloat.opp 0, PrimFloat.opp 1); (PrimFloat.opp 0, 1%float)].
Proof. vm_compute. reflexivity. Qed.

Example polysolve_real_x2_plus_1 :
  polysolve RT_real x2_plus_1 tolerance6 100 unit_device = Value [].
Proof. vm_compute. reflexivity. Qed.

(** ** x^2 + 1 with coefficients of type double *)

(** C7 (the code at the failing input).  [quadratic] called on x^2 + 1
    with coefficients of type double and the tolerance 1e-6: the
    discriminant b^2 - 4ac = -4 is a negative real number, its real square
    root is NaN, and so is q.  Neither |q| < tolerance nor |a| < tolerance
    holds (a comparison with NaN is false), so no "ill formed" failure is
    reported: the roots q/a and c/q are returned, and they are NaN, on a
    complex request and on a real request alike.  [polysolve], which
    converts the coefficients to complex numbers before it calls
    [quadratic], returns -i and +i for the same polynomial, and no root on
    a real request. *)
Theorem quadratic_real_negative_discriminant :
  OnReals.order real_x2_plus_1 = 2%nat /\
  positive tolerance6 /\
  OnReals.quadratic RT_complex real_x2_plus_1 tolerance6
    = Value [(nan, nan); (nan, 0)]%float /\
  OnReals.quadratic RT_real real_x2_plus_1 tolerance6
    = Value [nan; nan] /\
  OnReals.polysolve RT_complex real_x2_plus_1 tolerance6 100 unit_device
    = Value [(PrimFloat.opp 0, PrimFloat.opp 1); (PrimFloat.opp 0, 1%float)] /\
  OnReals.polysolve RT_real real_x2_plus_1 tolerance6 100 unit_device
    = Value [].
Proof.
  split; [reflexivity |].
  split; [split; vm_compute; reflexivity |].
  repeat split; vm_compute; reflexivity.
Qed.

(** With a positive discriminant the real square root is the one wanted:
    x^2 - 3x + 2 has the roots 1 and 2. *)
Example quadratic_real_x2_minus_3x_plus_2 :
  OnReals.quadratic RT_complex real_x2_minus_3x_plus_2 tolerance6
    = Value [(1, 0); (2, 0)]%float /\
  OnReals.quadratic RT_real real_x2_minus_3x_plus_2 tolerance6
    = Value [1; 2]%float.
Proof. split; vm_compute; reflexivity. Qed.

(** ** (x - 1)(x - 2)(x - 3)(x - 4) *)

Example polysolve_real_quartic :
  exists r1 r2 r3 r4,
    polysolve RT_real quartic tolerance6 100 unit_device = Value [r1; r2; r3; r4] /\
    Forall (fun rk => PrimFloat.ltb (PrimFloat.abs (fst rk - literal (snd rk))) tolerance6 = true)
      [(r1, 1%Q); (r2, 2%Q); (r3, 3%Q); (r4, 4%Q)].
Proof.
  do 4 eexists. split.
  - vm_compute. reflexivity.
  - repeat constructor.
Qed.

(** ** Witnesses *)




Lemma configuration_errors_are_thrown_witness :
  polysolve RT_complex quartic 0%float 100 unit_device = Throw InvalidTolerance /\
  laguerre quartic (0, 0)%float 0%float 100 unit_draws = Throw InvalidTolerance.
Proof.
  destruct (configuration_errors_are_thrown RT_complex quartic (0, 0)%float 0%float 100
              unit_device unit_draws) as (Hp & Hl & _).
  - left. vm_compute. reflexivity.
  - split.
    + destruct Hp as [Hp | Hp]; [exact Hp | vm_compute in Hp; discriminate].
    + destruct Hl as [Hl | Hl]; [exact Hl | vm_compute in Hl; discriminate].
Defined.

Lemma laguerre_terminates_witness :
  (laguerre_run quartic (0, 0)%float tolerance6 100 unit_draws
     = Unexpected MaxIterationsReached /\
   laguerre quartic (0, 0)%float tolerance6 100 unit_draws
     = Unexpected MaxIterationsReached) \/
  (exists n root,
     laguerre_run quartic (0, 0)%float tolerance6 100 unit_draws = Value (n, root) /\
     laguerre quartic (0, 0)%float tolerance6 100 unit_draws = Value root /\
     0 <= n < 100 /\
     (flt (cabs (eval quartic root)) tolerance6 = true \/
      flt (cabs (laguerre_step quartic (derivativeOf quartic)
                   (derivativeOf (derivativeOf quartic)) root)) tolerance6 = true)).
Proof.
  apply (laguerre_terminates quartic (0, 0)%float tolerance6 100 unit_draws).
  - split; vm_compute; reflexivity.
  - lia.
Defined.

Lemma quadratic_ill_formed_or_two_roots_witness :
  exists out,
    quadratic RT_complex x2_plus_1 tolerance6 = Value out /\
    Permutation [(PrimFloat.opp 0, PrimFloat.opp 1); (PrimFloat.opp 0, 1%float)] out.
Proof.
  destruct (quadratic_ill_formed_or_two_roots RT_complex x2_plus_1 tolerance6)
    as [_ H].
  - split; vm_compute; reflexivity.
  - vm_compute. reflexivity.
  - destruct H as [_ H].
    + vm_compute. reflexivity.
    + vm_compute. reflexivity.
    + exact H.
Defined.

Lemma analytic_solvers_ignore_tolerance_witness :
  polysolve_roots x2_plus_1 tolerance6 100 unit_device =
    polysolve_roots x2_plus_1 1%float 7 (fun _ _ => literal 0.9%Q) /\
  polysolve RT_real x2_plus_1 tolerance6 100 unit_device =
    bind (polysolve_roots x2_plus_1 1%float 7 (fun _ _ => literal 0.9%Q))
         (fun found => sortRoots RT_real found tolerance6).
Proof.
  destruct (analytic_solvers_ignore_tolerance RT_real x2_plus_1 tolerance6 1%float 100 7
              unit_device (fun _ _ => literal 0.9%Q)) as (H1 & _ & H2 & _).
  - vm_compute. split; repeat constructor.
  - split; vm_compute; reflexivity.
  - split; vm_compute; reflexivity.
  - lia.
  - lia.
  - split; [exact H1 | exact H2].
Defined.

Lemma polysolve_complex_root_count_witness :
  (1 <= order quartic)%nat /\
  length quartic_sorted = order quartic /\
  exists found,
    polysolve_roots quartic tolerance6 100 unit_device = Value found /\
    Permutation found quartic_sorted /\
    (4 <= order quartic ->
     exists extracted cub,
       found = extracted ++ cub /\
       length extracted = order quartic - 3 /\ length cub = 3)%nat.
Proof.
  apply (polysolve_complex_root_count quartic tolerance6 100 unit_device quartic_sorted).
  vm_compute. reflexivity.
Defined.

(** ** A cycle of the ordering rule *)


(** ** The perturbation in laguerre *)

(** C4 (the code at the failing input).  On x^4 - 1 from the guess 0 the
    Laguerre step of the first iteration is the fallback 0.1.  The counter
    is 0, a multiple of 10, and the draw is 1.0: the code moves the root by
    the draw itself, to -1, where the residual vanishes, and returns -1
    after one iteration.  With the step multiplied by the draw, the root
    would move to -0.1 and two iterations would not suffice. *)
Theorem laguerre_perturbation_replaces_step :
  laguerre_step x4_minus_1 (derivativeOf x4_minus_1)
    (derivativeOf (derivativeOf x4_minus_1)) (0, 0)%float
    = (literal 0.1%Q, 0%float) /\
  laguerre_run x4_minus_1 (0, 0)%float tolerance6 2 unit_draws
    = Value (1, (PrimFloat.opp 1, 0%float)) /\
  laguerre x4_minus_1 (0, 0)%float tolerance6 2 unit_draws
    = Value (PrimFloat.opp 1, 0%float) /\
  laguerre_loop_scaling x4_minus_1 (derivativeOf x4_minus_1)
    (derivativeOf (derivativeOf x4_minus_1)) tolerance6 2 unit_draws
    3 0 (0, 0)%float 0
    = Unexpected MaxIterationsReached.
Proof.
  repeat split; vm_compute; reflexivity.
Qed.

(** * Further properties of PolyRoots.hpp *)

Section FurtherProperties.

Context {F C : Type} {ops : Scalar F C} {consts : Constants F}.

Local Open Scope outcome_scope.

(** ** The newt lambda *)

Lemma newt_loop_converged (tolerance : F) (max_iterations : Z) (f df : Polynomial) :
  forall (fuel : nat) (i : Z) (x r : C),
    newt_loop tolerance max_iterations f df fuel i x = Value (Some r) ->
    i < max_iterations /\
    exists x',
      flt (cabs (eval df x')) EPS = false /\
      r = csub x' (cdiv (eval f x') (eval df x')) /\
      flt (fabs (re (eval f r))) tolerance = true /\
      flt (fabs (im (eval f r))) tolerance = true /\
      flt (fabs (re (cdiv (eval f x') (eval df x')))) tolerance = true /\
      flt (fabs (im (cdiv (eval f x') (eval df x')))) tolerance = true.
Proof.
  induction fuel as [| fuel IH]; intros i x r H; simpl in H.
  - discriminate.
  - destruct (max_iterations <=? i) eqn:Hmax; [discriminate |].
    apply Z.leb_gt in Hmax.
    destruct (flt (cabs (eval df x)) EPS) eqn:Hdf; [discriminate |].
    destruct (flt (fabs (re (eval f (csub x (cdiv (eval f x) (eval df x)))))) tolerance)
      eqn:H1; simpl in H.
    2: { destruct (IH _ _ _ H) as [Hi Hx]. split; [lia | exact Hx]. }
    destruct (flt (fabs (im (eval f (csub x (cdiv (eval f x) (eval df x)))))) tolerance)
      eqn:H2; simpl in H.
    2: { destruct (IH _ _ _ H) as [Hi Hx]. split; [lia | exact Hx]. }
    destruct (flt (fabs (re (cdiv (eval f x) (eval df x)))) tolerance) eqn:H3; simpl in H.
    2: { destruct (IH _ _ _ H) as [Hi Hx]. split; [lia | exact Hx]. }
    destruct (flt (fabs (im (cdiv (eval f x) (eval df x)))) tolerance) eqn:H4; simpl in H.
    2: { destruct (IH _ _ _ H) as [Hi Hx]. split; [lia | exact Hx]. }
    injection H as <-. split; [exact Hmax |].
    exists x. repeat split; assumption.
Qed.

(** X1.  A root that [newt] returns has passed the convergence test: the
    real and the imaginary part of the polynomial at the root, and of the
    last Newton step, are below the tolerance in magnitude; the root is one
    Newton step away from an iterate at which the derivative was not below
    [EPS].  [newt] does not return an iterate that has not converged. *)
Theorem newt_returns_converged_root (tolerance : F) (max_iterations : Z)
    (f : Polynomial) (x r : C) :
  newt tolerance max_iterations f x = Value (Some r) ->
  1 <= max_iterations /\
  flt (fabs (re (eval f r))) tolerance = true /\
  flt (fabs (im (eval f r))) tolerance = true /\
  exists x',
    flt (cabs (eval (derivativeOf f) x')) EPS = false /\
    r = csub x' (cdiv (eval f x') (eval (derivativeOf f) x')) /\
    flt (fabs (re (cdiv (eval f x') (eval (derivativeOf f) x')))) tolerance = true /\
    flt (fabs (im (cdiv (eval f x') (eval (derivativeOf f) x')))) tolerance = true.
Proof.
  unfold newt. intro H.
  destruct (newt_loop_converged _ _ _ _ _ _ _ _ H)
    as (Hi & x' & Hdf & Hr & H1 & H2 & H3 & H4).
  repeat split; try assumption; try lia.
  exists x'. repeat split; assumption.
Qed.

Lemma newt_loop_answers (tolerance : F) (max_iterations : Z) (f df : Polynomial) :
  forall (fuel : nat) (i : Z) (x : C),
    0 <= i ->
    (Z.to_nat (max_iterations - i) < fuel)%nat ->
    exists o, newt_loop tolerance max_iterations f df fuel i x = Value o.
Proof.
  induction fuel as [| fuel IH]; intros i x Hi Hfuel.
  - lia.
  - simpl. destruct (max_iterations <=? i) eqn:Hmax; [eexists; reflexivity |].
    apply Z.leb_gt in Hmax.
    destruct (flt (cabs (eval df x)) EPS); [eexists; reflexivity |].
    destruct (_ && _); [eexists; reflexivity |].
    apply IH; lia.
Qed.

Lemma newt_answers (tolerance : F) (max_iterations : Z) (f : Polynomial) (x : C) :
  exists o, newt tolerance max_iterations f x = Value o.
Proof.
  unfold newt. destruct (Z_lt_le_dec max_iterations 0) as [Hneg | Hpos].
  - simpl. replace (max_iterations <=? 0) with true by (symmetry; apply Z.leb_le; lia).
    eexists; reflexivity.
  - apply newt_loop_answers; lia.
Qed.

(** ** The outcomes of polysolve *)

Lemma laguerre_answers (poly : Polynomial) (guess : C) (tolerance : F)
    (max_iterations : Z) (dist : nat -> F) :
  fle tolerance (lit 0%Q) = false ->
  1 <= max_iterations ->
  (3 < order poly)%nat ->
  laguerre poly guess tolerance max_iterations dist = Unexpected MaxIterationsReached \/
  exists root, laguerre poly guess tolerance max_iterations dist = Value root.
Proof.
  intros Htol Hmax Hord. unfold laguerre, laguerre_run. rewrite Htol.
  replace (max_iterations <? 1) with false by (symmetry; apply Z.ltb_ge; lia).
  replace (order poly <=? 3)%nat with false by (symmetry; apply Nat.leb_gt; lia).
  destruct (flt (cabs (eval poly guess)) tolerance); [right; eexists; reflexivity |].
  destruct (laguerre_loop_total poly (derivativeOf poly)
              (derivativeOf (derivativeOf poly)) tolerance max_iterations dist
              (S (Z.to_nat max_iterations)) 0 guess 0)
    as [H | (n & r & H & _)]; try lia; rewrite H; simpl.
  - left; reflexivity.
  - right; eexists; reflexivity.
Qed.

Lemma deflation_pass_answers (tolerance : F) (max_iterations : Z)
    (random_device : nat -> nat -> F) (st : LoopState) :
  fle tolerance (lit 0%Q) = false ->
  1 <= max_iterations ->
  (3 < order (polynomial st))%nat ->
  (exists st', deflation_pass tolerance max_iterations random_device st = Value st') \/
  (exists e, deflation_pass tolerance max_iterations random_device st = Unexpected e /\
             In e [LaguerreFailed; NewtonFailed; RootNotFinite]).
Proof.
  intros Htol Hmax Hord.
  destruct (laguerre_answers (polynomial st) (c_of_real (lit 0%Q)) tolerance
              max_iterations (random_device (length (roots st))) Htol Hmax Hord)
    as [Hl | [root Hl]].
  - right. exists LaguerreFailed. unfold deflation_pass. rewrite Hl. simpl. tauto.
  - destruct (newt_answers tolerance max_iterations (original st) root) as [[polished |] Hn].
    + rewrite (deflation_pass_polished _ _ _ _ _ _ Hl Hn).
      destruct (finite_on (original st) polished).
      * left. eexists; reflexivity.
      * right. exists RootNotFinite. simpl. tauto.
    + right. exists NewtonFailed. unfold deflation_pass. rewrite Hl. simpl.
      rewrite last_last, Hn. simpl. tauto.
Qed.

(** ** The finiteness test after polishing *)

(** C8.  At any pass of the loop of [polysolve] on a polynomial of order
    >= 4, under a valid configuration, the pass has one of two outcomes.
    Either it accepts a root: then this root is the result of polishing (by
    [newt], on the input polynomial) the root that [laguerre] extracted, it
    has passed the finiteness test (the real and the imaginary part of the
    input polynomial at the root are finite), and the loop goes on.  Or the
    pass fails, with one of the messages "Error: Laguerre's method failed
    to converge.", "Error: Newton's method failed to converge." and "Error:
    Root is not finite.": then the whole call of [polysolve] returns this
    failure, and no root set.  No root whose value on the input polynomial
    is not finite is ever accepted. *)
Theorem polysolve_rejects_non_finite_root (rt : ReturnType) (poly : Polynomial)
    (tolerance : F) (max_iterations : Z) (random_device : nat -> nat -> F)
    (n : nat) (st : LoopState) :
  positive tolerance ->
  1 <= max_iterations ->
  passes tolerance max_iterations random_device n (initial_state poly) st ->
  (3 < order (polynomial st))%nat ->
  match deflation_pass tolerance max_iterations random_device st with
  | Value st' =>
      exists root polished,
        laguerre (polynomial st) (c_of_real (lit 0%Q)) tolerance max_iterations
          (random_device (length (roots st))) = Value root /\
        newt tolerance max_iterations poly root = Value (Some polished) /\
        roots st' = roots st ++ [polished] /\
        isfinite (re (eval poly polished)) = true /\
        isfinite (im (eval poly polished)) = true /\
        passes tolerance max_iterations random_device (S n) (initial_state poly) st'
  | Unexpected e =>
      In e [LaguerreFailed; NewtonFailed; RootNotFinite] /\
      polysolve rt poly tolerance max_iterations random_device = Unexpected e
  | Throw _ | OutOfFuel => False
  end.
Proof.
  intros Htol Hmax Hpasses Hord.
  pose proof (positive_guard _ Htol) as Hguard.
  destruct (deflation_pass_answers tolerance max_iterations random_device st
              Hguard Hmax Hord) as [[st' Hpass] | (e & Hpass & He)].
  - rewrite Hpass.
    destruct (deflation_pass_value _ _ _ _ _ Hpass)
      as (root & polished & Hl & Hn & Hfin & Hst).
    destruct (passes_frame _ _ _ _ _ _ Hpasses) as (Ho & _).
    rewrite initial_state_eq in Ho. simpl in Ho.
    rewrite Ho in Hn, Hfin.
    unfold finite_on in Hfin. apply andb_prop in Hfin. destruct Hfin as [Hre Him].
    exists root, polished. repeat split; try assumption.
    + rewrite Hst. reflexivity.
    + eapply passes_snoc; eassumption.
  - rewrite Hpass. split; [exact He |].
    eapply polysolve_pass_fails; eassumption.
Qed.

(** Where an [Unexpected] comes from. *)
Lemma sortRoots_not_unexpected (rt : ReturnType) (found : list C) (tolerance : F)
    (e : NumerixxError) :
  sortRoots rt found tolerance <> Unexpected e.
Proof.
  unfold sortRoots. destruct (fle tolerance (lit 0%Q)); [discriminate |].
  destruct rt; discriminate.
Qed.

Lemma cubic_not_unexpected (rt : ReturnType) (p : Polynomial) (tolerance : F)
    (e : NumerixxError) :
  cubic rt p tolerance <> Unexpected e.
Proof.
  unfold cubic. destruct (fle tolerance (lit 0%Q)); [discriminate |].
  destruct (negb _); [discriminate | apply sortRoots_not_unexpected].
Qed.

Lemma linear_not_unexpected (rt : ReturnType) (p : Polynomial) (tolerance : F)
    (e : NumerixxError) :
  linear rt p tolerance <> Unexpected e.
Proof.
  unfold linear. destruct (fle tolerance (lit 0%Q)); [discriminate |].
  destruct (negb _); [discriminate | apply sortRoots_not_unexpected].
Qed.

Lemma bind_unexpected {A B : Type} (x : outcome A) (k : A -> outcome B)
    (e : NumerixxError) :
  bind x k = Unexpected e ->
  x = Unexpected e \/ exists a, x = Value a /\ k a = Unexpected e.
Proof.
  destruct x as [a | e0 | e0 |]; simpl; intro H; try discriminate.
  - right. exists a. split; [reflexivity | exact H].
  - left. injection H as <-. reflexivity.
Qed.

Lemma expect_unexpected {A : Type} (x : outcome A) (e' e : NumerixxError) :
  expect x e' = Unexpected e -> e = e' /\ exists e0, x = Unexpected e0.
Proof.
  destruct x as [a | e0 | e0 |]; simpl; intro H; try discriminate.
  injection H as <-. split; [reflexivity | exists e0; reflexivity].
Qed.

(** On IEEE 754 numbers a comparison [|v| < t] holds for a finite [v]
    only.  Under this law of the scalar type the convergence test of [newt]
    makes the finiteness test that follows it pass. *)
Section FiniteBelowTolerance.

Hypothesis below_is_finite :
  forall v t : F, flt (fabs v) t = true -> isfinite v = true.

Lemma newt_root_finite (tolerance : F) (max_iterations : Z) (f : Polynomial)
    (x r : C) :
  newt tolerance max_iterations f x = Value (Some r) ->
  finite_on f r = true.
Proof.
  unfold newt. intro H.
  destruct (newt_loop_converged _ _ _ _ _ _ _ _ H) as (_ & x' & _ & _ & H1 & H2 & _).
  unfold finite_on.
  rewrite (below_is_finite _ _ H1), (below_is_finite _ _ H2). reflexivity.
Qed.

Lemma deflation_pass_unexpected (tolerance : F) (max_iterations : Z)
    (random_device : nat -> nat -> F) (st : LoopState) (e : NumerixxError) :
  deflation_pass tolerance max_iterations random_device st = Unexpected e ->
  In e [LaguerreFailed; NewtonFailed].
Proof.
  destruct (laguerre (polynomial st) (c_of_real (lit 0%Q)) tolerance max_iterations
              (random_device (length (roots st)))) as [root | e0 | e0 |] eqn:Hl.
  - destruct (newt_answers tolerance max_iterations (original st) root)
      as [[polished |] Hn].
    + rewrite (deflation_pass_polished _ _ _ _ _ _ Hl Hn).
      rewrite (newt_root_finite _ _ _ _ _ Hn). discriminate.
    + unfold deflation_pass. rewrite Hl. simpl.
      rewrite last_last, Hn. simpl.
      intro H. injection H as <-. simpl. tauto.
  - unfold deflation_pass. rewrite Hl. simpl.
    intro H. injection H as <-. simpl. tauto.
  - unfold deflation_pass. rewrite Hl. discriminate.
  - unfold deflation_pass. rewrite Hl. discriminate.
Qed.

Lemma deflation_loop_unexpected (tolerance : F) (max_iterations : Z)
    (random_device : nat -> nat -> F) (e : NumerixxError) :
  forall (fuel : nat) (st : LoopState),
    deflation_loop tolerance max_iterations random_device fuel st = Unexpected e ->
    In e [LaguerreFailed; NewtonFailed].
Proof.
  induction fuel as [| fuel IH]; intro st; simpl.
  - destruct (3 <? order (polynomial st))%nat; discriminate.
  - destruct (3 <? order (polynomial st))%nat; [| discriminate].
    destruct (deflation_pass tolerance max_iterations random_device st)
      as [st1 | e0 | e0 |] eqn:Hpass; simpl; try discriminate.
    + apply IH.
    + intro H. injection H as <-. apply (deflation_pass_unexpected _ _ _ _ _ Hpass).
Qed.

Lemma higher_order_unexpected (tolerance : F) (max_iterations : Z)
    (random_device : nat -> nat -> F) (fuel : nat) (st0 : LoopState)
    (e : NumerixxError) :
  (st <- deflation_loop tolerance max_iterations random_device fuel st0 ;;
   cuberoots <- expect (cubic RT_complex (polynomial st) EPS) CubicNoSolution ;;
   Value (roots st ++ cuberoots)) = Unexpected e ->
  In e [LaguerreFailed; NewtonFailed].
Proof.
  intro H. apply bind_unexpected in H. destruct H as [H | (st & _ & H)].
  - apply (deflation_loop_unexpected _ _ _ _ _ _ H).
  - apply bind_unexpected in H. destruct H as [H | (cub & _ & H)]; [| discriminate].
    apply expect_unexpected in H. destruct H as (_ & e0 & H).
    exfalso. exact (cubic_not_unexpected _ _ _ _ H).
Qed.

(** X12.  On a scalar type in which [|v| < t] holds for a finite [v] only,
    as on IEEE 754 numbers, [polysolve] never returns "Error: Root is not
    finite.": a root that [newt] returns has real and imaginary parts of
    the polynomial value below the tolerance, so the finiteness test on the
    same value cannot fail.  Every failure that [polysolve] returns is then
    "Error: Quadratic equation has no solution.", "Error: Laguerre's method
    failed to converge." or "Error: Newton's method failed to converge.". *)
Theorem polysolve_never_reports_root_not_finite (rt : ReturnType)
    (poly : Polynomial) (tolerance : F) (max_iterations : Z)
    (random_device : nat -> nat -> F) (e : NumerixxError) :
  polysolve rt poly tolerance max_iterations random_device = Unexpected e ->
  In e [QuadraticNoSolution; LaguerreFailed; NewtonFailed].
Proof.
  unfold polysolve.
  destruct (fle tolerance (lit 0%Q)); [discriminate |].
  destruct (max_iterations <? 1); [discriminate |].
  destruct (order poly <? 1)%nat; [discriminate |].
  intro H. apply bind_unexpected in H.
  destruct H as [H | (found & _ & H)];
    [| exfalso; exact (sortRoots_not_unexpected _ _ _ _ H)].
  unfold polysolve_roots in H.
  destruct (order poly) as [| [| [| [| m]]]].
  - apply higher_order_unexpected in H. simpl in H. simpl. tauto.
  - apply bind_unexpected in H. destruct H as [H | (r & _ & H)]; [| discriminate].
    apply expect_unexpected in H. destruct H as (_ & e0 & H).
    exfalso. exact (linear_not_unexpected _ _ _ _ H).
  - apply bind_unexpected in H. destruct H as [H | (r & _ & H)]; [| discriminate].
    apply expect_unexpected in H. destruct H as (-> & _). simpl. tauto.
  - apply bind_unexpected in H. destruct H as [H | (r & _ & H)]; [| discriminate].
    apply expect_unexpected in H. destruct H as (_ & e0 & H).
    exfalso. exact (cubic_not_unexpected _ _ _ _ H).
  - apply higher_order_unexpected in H. simpl in H. simpl. tauto.
Qed.

End FiniteBelowTolerance.

Lemma passes_order_at_least (tolerance : F) (max_iterations : Z)
    (random_device : nat -> nat -> F) (n : nat) (st st' : LoopState) :
  passes tolerance max_iterations random_device n st st' ->
  (3 <= order (polynomial st))%nat -> (3 <= order (polynomial st'))%nat.
Proof.
  induction 1 as [st | n st st1 st2 Hord Hpass Hrest IH]; intro H3.
  - exact H3.
  - apply IH.
    destruct (deflation_pass_value _ _ _ _ _ Hpass) as (r & p & _ & _ & _ & ->).
    simpl. rewrite order_deflate. lia.
Qed.

Lemma deflation_loop_answers (tolerance : F) (max_iterations : Z)
    (random_device : nat -> nat -> F) :
  fle tolerance (lit 0%Q) = false ->
  1 <= max_iterations ->
  forall (fuel : nat) (st : LoopState),
    (order (polynomial st) <= fuel + 3)%nat ->
    (exists st', deflation_loop tolerance max_iterations random_device fuel st = Value st') \/
    (exists e, deflation_loop tolerance max_iterations random_device fuel st = Unexpected e /\
               In e [LaguerreFailed; NewtonFailed; RootNotFinite]).
Proof.
  intros Htol Hmax.
  induction fuel as [| fuel IH]; intros st Hord; simpl.
  - replace (3 <? order (polynomial st))%nat with false
      by (symmetry; apply Nat.ltb_ge; lia).
    left; eexists; reflexivity.
  - destruct (3 <? order (polynomial st))%nat eqn:H3; [| left; eexists; reflexivity].
    apply Nat.ltb_lt in H3.
    destruct (deflation_pass_answers tolerance max_iterations random_device st Htol Hmax H3)
      as [[st1 Hpass] | (e & Hpass & He)].
    + rewrite Hpass. simpl. apply IH.
      destruct (deflation_pass_value _ _ _ _ _ Hpass) as (r & p & _ & _ & _ & ->).
      simpl. rewrite order_deflate. lia.
    + right. exists e. rewrite Hpass. simpl. split; [reflexivity | exact He].
Qed.

Lemma sortRoots_answers (rt : ReturnType) (found : list C) (tolerance : F) :
  fle tolerance (lit 0%Q) = false ->
  exists out, sortRoots rt found tolerance = Value out.
Proof.
  intro Htol. unfold sortRoots. rewrite Htol. destruct rt; eexists; reflexivity.
Qed.

Lemma cubic_answers (rt : ReturnType) (p : Polynomial) (tolerance : F) :
  fle tolerance (lit 0%Q) = false ->
  order p = 3%nat ->
  cubic rt p tolerance = sortRoots rt (cubic_roots p) tolerance.
Proof.
  intros Htol Hord. unfold cubic. rewrite Htol, Hord. reflexivity.
Qed.

Lemma linear_answers (rt : ReturnType) (p : Polynomial) (tolerance : F) :
  fle tolerance (lit 0%Q) = false ->
  order p = 1%nat ->
  linear rt p tolerance =
  sortRoots rt [cdiv (cneg (hd (c_of_real (lit 0%Q)) (coefficients p)))
                     (last (coefficients p) (c_of_real (lit 0%Q)))] tolerance.
Proof.
  intros Htol Hord. unfold linear. rewrite Htol, Hord. reflexivity.
Qed.

(** X2.  With a valid configuration (positive tolerance, at least one
    iteration, order >= 1, and a default tolerance [EPS] that is not <= 0)
    [polysolve] never throws: it returns a root set, or a [tl::unexpected]
    whose message is one of "Error: Quadratic equation has no solution.",
    "Error: Laguerre's method failed to converge.", "Error: Newton's method
    failed to converge." and "Error: Root is not finite.".  The failures
    "Linear equation has no solution" and "Cubic equation has no solution"
    are never returned, since [linear] and [cubic] have no failing return. *)
Theorem polysolve_failures (rt : ReturnType) (poly : Polynomial) (tolerance : F)
    (max_iterations : Z) (random_device : nat -> nat -> F) :
  positive tolerance ->
  1 <= max_iterations ->
  (1 <= order poly)%nat ->
  fle EPS (lit 0%Q) = false ->
  (exists out, polysolve rt poly tolerance max_iterations random_device = Value out) \/
  (exists e,
     polysolve rt poly tolerance max_iterations random_device = Unexpected e /\
     In e [QuadraticNoSolution; LaguerreFailed; NewtonFailed; RootNotFinite]).
Proof.
  intros Htol Hmax Hord Heps. apply positive_guard in Htol.
  unfold polysolve. rewrite Htol.
  replace (max_iterations <? 1) with false by (symmetry; apply Z.ltb_ge; lia).
  replace (order poly <? 1)%nat with false by (symmetry; apply Nat.ltb_ge; lia).
  destruct poly as [cs]. unfold polysolve_roots. simpl coefficients.
  destruct (order (mkPolynomial cs)) as [| [| [| [| m]]]] eqn:Ho; try lia.
  - left. rewrite (linear_answers RT_complex _ EPS Heps Ho).
    rewrite (sortRoots_complex _ EPS Heps). simpl.
    apply sortRoots_answers, Htol.
  - unfold quadratic. rewrite Heps, Ho. simpl negb. cbv iota.
    destruct (_ || _).
    + right. exists QuadraticNoSolution. simpl. tauto.
    + left. rewrite (sortRoots_complex _ EPS Heps). simpl.
      apply sortRoots_answers, Htol.
  - left. rewrite (cubic_answers RT_complex _ EPS Heps Ho).
    rewrite (sortRoots_complex _ EPS Heps). simpl.
    apply sortRoots_answers, Htol.
  - change {| polynomial := mkPolynomial cs; original := mkPolynomial cs; roots := [] |}
      with (initial_state (mkPolynomial cs)).
    assert (Hinit : order (polynomial (initial_state (mkPolynomial cs)))
                    = S (S (S (S m)))) by exact Ho.
    destruct (deflation_loop_answers tolerance max_iterations random_device Htol Hmax
                (S (S (S (S m)))) (initial_state (mkPolynomial cs)))
      as [[st Hloop] | (e & Hloop & He)].
    + rewrite Hinit. lia.
    + destruct (deflation_loop_value _ _ _ _ _ _ Hloop) as (n & Hn & Hle).
      assert (H3 : order (polynomial st) = 3%nat).
      { apply Nat.le_antisymm; [exact Hle |].
        apply (passes_order_at_least _ _ _ _ _ _ Hn).
        rewrite Hinit. lia. }
      left. rewrite Hloop. simpl.
      rewrite (cubic_answers RT_complex _ EPS Heps H3).
      rewrite (sortRoots_complex _ EPS Heps). simpl.
      apply sortRoots_answers, Htol.
    + right. exists e. rewrite Hloop. simpl. split; [reflexivity |].
      simpl in He. tauto.
Qed.

(** X3.  A polynomial of order >= 4 whose value at 0 is below the
    tolerance and whose derivative at 0 is below [EPS] (a multiple root at
    the origin, as in x^4 or x^5 - x^4) is not solved: [laguerre] accepts
    the guess 0 as a root at once, [newt] gives up on the vanishing
    derivative, and [polysolve] returns "Error: Newton's method failed to
    converge.". *)
Theorem polysolve_fails_on_multiple_root_at_origin (rt : ReturnType)
    (poly : Polynomial) (tolerance : F) (max_iterations : Z)
    (random_device : nat -> nat -> F) :
  positive tolerance ->
  1 <= max_iterations ->
  (4 <= order poly)%nat ->
  flt (cabs (eval poly (c_of_real (lit 0%Q)))) tolerance = true ->
  flt (cabs (eval (derivativeOf poly) (c_of_real (lit 0%Q)))) EPS = true ->
  polysolve rt poly tolerance max_iterations random_device = Unexpected NewtonFailed.
Proof.
  intros Htol Hmax Hord Hres Hdf. apply positive_guard in Htol.
  unfold polysolve. rewrite Htol.
  replace (max_iterations <? 1) with false by (symmetry; apply Z.ltb_ge; lia).
  replace (order poly <? 1)%nat with false by (symmetry; apply Nat.ltb_ge; lia).
  destruct poly as [cs]. unfold polysolve_roots. simpl coefficients.
  destruct (order (mkPolynomial cs)) as [| [| [| [| m]]]] eqn:Ho; try lia.
  simpl deflation_loop. rewrite Ho. simpl Nat.ltb. cbv iota.
  unfold deflation_pass. simpl polynomial. simpl original. simpl roots.
  unfold laguerre, laguerre_run. rewrite Htol, Ho, Hres.
  replace (max_iterations <? 1) with false by (symmetry; apply Z.ltb_ge; lia).
  simpl. unfold newt. simpl.
  replace (max_iterations <=? 0) with false by (symmetry; apply Z.leb_gt; lia).
  rewrite Hdf. reflexivity.
Qed.

Lemma passes_roots_polished (tolerance : F) (max_iterations : Z)
    (random_device : nat -> nat -> F) (n : nat) (st st' : LoopState) :
  passes tolerance max_iterations random_device n st st' ->
  forall P : C -> Prop,
    (forall r,
       flt (fabs (re (eval (original st) r))) tolerance = true ->
       flt (fabs (im (eval (original st) r))) tolerance = true ->
       finite_on (original st) r = true -> P r) ->
    Forall P (roots st) -> Forall P (roots st').
Proof.
  induction 1 as [st | n st st1 st2 Hord Hpass Hrest IH]; intros P HP Hall.
  - exact Hall.
  - destruct (deflation_pass_value _ _ _ _ _ Hpass)
      as (root & polished & _ & Hn & Hfin & ->).
    simpl in IH. apply (IH P HP).
    apply Forall_app. split; [exact Hall |].
    constructor; [| constructor].
    unfold newt in Hn.
    destruct (newt_loop_converged _ _ _ _ _ _ _ _ Hn)
      as (_ & x' & _ & _ & H1 & H2 & _).
    apply HP; assumption.
Qed.

(** X4.  When the switch of [polysolve] succeeds on a polynomial of order
    n >= 4, each of the n - 3 roots extracted by iteration satisfies, on
    the input polynomial itself (not on a deflated one): the real and the
    imaginary part of the value of the polynomial at the root are below the
    tolerance in magnitude, and both are finite. *)
Theorem polysolve_extracted_roots_polished (poly : Polynomial) (tolerance : F)
    (max_iterations : Z) (random_device : nat -> nat -> F) (found : list C) :
  (4 <= order poly)%nat ->
  polysolve_roots poly tolerance max_iterations random_device = Value found ->
  Forall (fun r =>
            flt (fabs (re (eval poly r))) tolerance = true /\
            flt (fabs (im (eval poly r))) tolerance = true /\
            isfinite (re (eval poly r)) = true /\
            isfinite (im (eval poly r)) = true)
         (firstn (order poly - 3) found).
Proof.
  intros Hord H.
  destruct (polysolve_roots_higher _ _ _ _ _ Hord H)
    as (st & cub & Hpasses & _ & _ & ->).
  destruct (passes_frame _ _ _ _ _ _ Hpasses) as (_ & _ & extracted & Hr & Hlen & _).
  simpl in Hr.
  replace (firstn (order poly - 3) (roots st ++ cub)) with (roots st).
  2: { rewrite firstn_app, Hr, Hlen, Nat.sub_diag. simpl.
       rewrite app_nil_r. rewrite <- Hlen. symmetry. apply firstn_all. }
  apply (passes_roots_polished _ _ _ _ _ _ Hpasses); [| constructor].
  rewrite initial_state_eq. simpl. intros r H1 H2 Hfin.
  unfold finite_on in Hfin. apply andb_prop in Hfin.
  repeat split; try assumption; apply Hfin.
Qed.

(** ** linear *)

(** X5.  On a polynomial [c1 x + c0] of order 1 and a positive tolerance,
    [linear] has no failing return: a complex request yields the single
    root (-c0) / c1, whatever [c1] is, and a real request yields its real
    part, or nothing when the imaginary part of the root has magnitude
    >= sqrt(tolerance).  A polynomial of another order makes it throw
    "Error: Input is not a linear polynomial.". *)
Theorem linear_single_root (poly : Polynomial) (tolerance : F) :
  positive tolerance ->
  let root : C := cdiv (cneg (coeff poly 0)) (coeff poly 1) in
  if (order poly =? 1)%nat
  then
    linear RT_complex poly tolerance = Value [root] /\
    linear RT_real poly tolerance =
      Value (if fle (fsqrt tolerance) (fabs (im root)) then [] else [re root])
  else
    linear RT_complex poly tolerance = Throw NotLinear /\
    linear RT_real poly tolerance = Throw NotLinear.
Proof.
  intros Htol root. apply positive_guard in Htol.
  destruct (order poly =? 1)%nat eqn:Hord.
  - apply Nat.eqb_eq in Hord.
    rewrite !(linear_answers _ _ _ Htol Hord).
    destruct poly as [[| c0 [| c1 [| c2 cs]]]]; try discriminate.
    subst root. unfold coeff. simpl.
    unfold sortRoots. rewrite Htol. simpl. unfold not_real.
    split; [reflexivity |].
    destruct (fle (fsqrt tolerance) (fabs (im (cdiv (cneg c0) c1)))); reflexivity.
  - unfold linear. rewrite Htol, Hord. split; reflexivity.
Qed.

(** ** polysolve on quadratics and with real output *)

(** X6.  On a polynomial of order 2, [polysolve] judges degeneracy by the
    default tolerance [EPS] and not by the caller's: it returns "Error:
    Quadratic equation has no solution." (in place of the "ill formed"
    failure of [quadratic]) exactly when |q| or |a| is below [EPS], and a
    root set otherwise. *)
Theorem polysolve_quadratic_degeneracy (rt : ReturnType) (poly : Polynomial)
    (tolerance : F) (max_iterations : Z) (random_device : nat -> nat -> F) :
  positive tolerance ->
  1 <= max_iterations ->
  order poly = 2%nat ->
  fle EPS (lit 0%Q) = false ->
  let a : C := coeff poly 2 in
  let q : C := quadratic_q (coeff poly 2) (coeff poly 1) (coeff poly 0) in
  if flt (cabs q) EPS || flt (cabs a) EPS
  then polysolve rt poly tolerance max_iterations random_device
       = Unexpected QuadraticNoSolution
  else exists out,
         polysolve rt poly tolerance max_iterations random_device = Value out.
Proof.
  intros Htol Hmax Hord Heps a q. subst a q. apply positive_guard in Htol.
  unfold polysolve. rewrite Htol, Hord.
  replace (max_iterations <? 1) with false by (symmetry; apply Z.ltb_ge; lia).
  change (2 <? 1)%nat with false. cbv iota.
  destruct poly as [cs]. unfold polysolve_roots. simpl coefficients. rewrite Hord.
  unfold quadratic. rewrite Heps, Hord. simpl negb. cbv iota.
  destruct (_ || _).
  - reflexivity.
  - rewrite (sortRoots_complex _ EPS Heps). simpl.
    apply sortRoots_answers, Htol.
Qed.

(** X7.  When [polysolve] succeeds with real output on a polynomial of
    order n, the values returned are the real parts of those of the n roots
    found whose imaginary part has magnitude below sqrt(tolerance), each
    taken once: at most n values, and none that is not the real part of a
    root found. *)
Theorem polysolve_real_output (poly : Polynomial) (tolerance : F)
    (max_iterations : Z) (random_device : nat -> nat -> F) (out : list F) :
  polysolve RT_real poly tolerance max_iterations random_device = Value out ->
  exists found kept,
    polysolve_roots poly tolerance max_iterations random_device = Value found /\
    length found = order poly /\
    Permutation
      (filter (fun r => negb (fle (fsqrt tolerance) (fabs (im r)))) found) kept /\
    out = map re kept /\
    (length out <= order poly)%nat.
Proof.
  unfold polysolve. intro H.
  destruct (fle tolerance (lit 0%Q)) eqn:Htol; [discriminate |].
  destruct (max_iterations <? 1); [discriminate |].
  destruct (order poly <? 1)%nat eqn:Hord; [discriminate |].
  apply Nat.ltb_ge in Hord.
  apply bind_value in H. destruct H as (found & Hfound & Hsort).
  rewrite (sortRoots_real found tolerance Htol) in Hsort. injection Hsort as <-.
  pose proof (polysolve_roots_length _ _ _ _ _ Hord Hfound) as Hlen.
  eexists found, _. split; [exact Hfound |]. split; [exact Hlen |].
  split; [apply std_sort_perm |]. split; [reflexivity |].
  rewrite length_map, <- (Permutation_length (std_sort_perm _ _)), <- Hlen.
  apply filter_length_le.
Qed.

End FurtherProperties.

(** * Properties of the earlier revision *)

Section EarlierRevision.

Context {F C : Type} {ops : Scalar F C} {consts : Constants F}.

Lemma v1_laguerre_loop_returns (poly d1poly d2poly : Polynomial) (tolerance : F)
    (max_iterations : Z) (dist : nat -> F) :
  forall (fuel : nat) (i : Z) (root : C) (drawn : nat),
    0 <= i ->
    (Z.to_nat (max_iterations - i) < fuel)%nat ->
    exists r,
      V1.laguerre_loop poly d1poly d2poly tolerance max_iterations dist
        fuel i root drawn = V1.Returns r.
Proof.
  induction fuel as [| fuel IH]; intros i root drawn Hi Hfuel.
  - lia.
  - simpl. destruct (max_iterations <=? i) eqn:Hmax; [eexists; reflexivity |].
    apply Z.leb_gt in Hmax.
    destruct (flt (cabs _) tolerance); [eexists; reflexivity |].
    destruct (Z.rem i 10 =? 0); apply IH; lia.
Qed.

(** X8.  [laguerre] of the earlier revision validates nothing and reports
    nothing: for every polynomial, guess, tolerance and iteration bound it
    returns a value, converged or not; when [max_iterations] is <= 0 the
    loop body never runs and the value is the guess itself. *)
Theorem v1_laguerre_always_returns (poly : Polynomial) (guess : C) (tolerance : F)
    (max_iterations : Z) (dist : nat -> F) :
  exists root,
    V1.laguerre poly guess tolerance max_iterations dist = V1.Returns root /\
    (max_iterations <= 0 -> root = guess).
Proof.
  unfold V1.laguerre.
  destruct (flt (cabs (eval poly guess)) tolerance).
  - exists guess. split; [reflexivity | reflexivity].
  - destruct (Z_le_gt_dec max_iterations 0) as [Hle | Hgt].
    + exists guess. split; [| reflexivity].
      simpl. replace (max_iterations <=? 0) with true by (symmetry; apply Z.leb_le; lia).
      reflexivity.
    + destruct (v1_laguerre_loop_returns poly (derivativeOf poly)
                  (derivativeOf (derivativeOf poly)) tolerance max_iterations dist
                  (S (Z.to_nat max_iterations)) 0 guess 0) as [r Hr]; try lia.
      exists r. split; [exact Hr | lia].
Qed.

Lemma v1_laguerre_returns (poly : Polynomial) (guess : C) (tolerance : F)
    (max_iterations : Z) (dist : nat -> F) :
  exists root, V1.laguerre poly guess tolerance max_iterations dist = V1.Returns root.
Proof.
  unfold V1.laguerre.
  destruct (flt (cabs (eval poly guess)) tolerance); [eexists; reflexivity |].
  destruct (Z_le_gt_dec max_iterations 0) as [Hle | Hgt].
  - simpl. replace (max_iterations <=? 0) with true by (symmetry; apply Z.leb_le; lia).
    eexists; reflexivity.
  - apply v1_laguerre_loop_returns; lia.
Qed.

Lemma v1_deflation_loop_step (poly : Polynomial) (tolerance : F)
    (max_iterations : Z) (random_device : nat -> nat -> F)
    (fuel : nat) (polynomial : Polynomial) (roots : list C) :
  V1.deflation_loop poly tolerance max_iterations random_device (S fuel) polynomial roots =
  if (3 <? order polynomial)%nat then
    V1.then_ (V1.laguerre polynomial (c_of_real (lit 0%Q)) tolerance max_iterations
                (random_device (2 * length roots)%nat))
      (fun root =>
         V1.then_ (V1.laguerre poly root tolerance max_iterations
                     (random_device (2 * length roots + 1)%nat))
           (fun polished =>
              V1.deflation_loop poly tolerance max_iterations random_device fuel
                (deflate polynomial polished) (roots ++ [polished])))
  else V1.Returns (polynomial, roots).
Proof.
  reflexivity.
Qed.

Lemma v1_deflation_loop_returns (poly : Polynomial) (tolerance : F)
    (max_iterations : Z) (random_device : nat -> nat -> F) :
  forall (fuel : nat) (polynomial : Polynomial) (roots : list C),
    (order polynomial <= fuel + 3)%nat ->
    exists polynomial' extracted,
      V1.deflation_loop poly tolerance max_iterations random_device fuel polynomial roots
        = V1.Returns (polynomial', roots ++ extracted) /\
      (order polynomial' <= 3)%nat /\
      (3 <= order polynomial -> 3 <= order polynomial')%nat /\
      (order polynomial' + length extracted = order polynomial)%nat.
Proof.
  induction fuel as [| fuel IH]; intros polynomial roots Hord.
  - simpl.
    replace (3 <? order polynomial)%nat with false by (symmetry; apply Nat.ltb_ge; lia).
    exists polynomial, []. rewrite app_nil_r. simpl. repeat split; lia.
  - rewrite v1_deflation_loop_step.
    destruct (3 <? order polynomial)%nat eqn:H3.
    + apply Nat.ltb_lt in H3.
      destruct (v1_laguerre_returns polynomial (c_of_real (lit 0%Q)) tolerance
                  max_iterations (random_device (2 * length roots)%nat)) as [root Hroot].
      rewrite Hroot. cbn [V1.then_].
      destruct (v1_laguerre_returns poly root tolerance max_iterations
                  (random_device (2 * length roots + 1)%nat)) as [polished Hpol].
      rewrite Hpol. cbn [V1.then_].
      destruct (IH (deflate polynomial polished) (roots ++ [polished]))
        as (p' & extracted & Hloop & Hle & Hge & Hsum).
      { rewrite order_deflate. lia. }
      exists p', (polished :: extracted).
      rewrite Hloop, <- app_assoc. simpl.
      rewrite order_deflate in Hsum, Hge. repeat split; lia || reflexivity.
    + apply Nat.ltb_ge in H3.
      exists polynomial, []. rewrite app_nil_r. simpl. repeat split; lia.
Qed.

Lemma v1_sortAndReturn_complex (found : list C) (tolerance : F) :
  Permutation found (V1.sortAndReturn RT_complex found tolerance).
Proof.
  unfold V1.sortAndReturn. apply std_sort_perm.
Qed.

Lemma v1_sortAndReturn_real_length (found : list C) (tolerance : F) :
  (length (V1.sortAndReturn RT_real found tolerance) <= length found)%nat.
Proof.
  unfold V1.sortAndReturn.
  rewrite length_map, (Permutation_length (std_sort_perm (fun a b => flt (re a) (re b)) found)).
  apply filter_length_le.
Qed.

(** The vector [roots] of the earlier [polysolve] before the final
    [sortAndReturn], for an order >= 2. *)
Lemma v1_polysolve_found (poly : Polynomial) (tolerance : F) (max_iterations : Z)
    (random_device : nat -> nat -> F) :
  (2 <= order poly)%nat ->
  exists found,
    length found = order poly /\
    forall rt,
      V1.polysolve rt poly tolerance max_iterations random_device
        = V1.Returns (V1.sortAndReturn rt found tolerance).
Proof.
  intro Hord. unfold V1.polysolve.
  replace (order poly <=? 1)%nat with false by (symmetry; apply Nat.leb_gt; lia).
  destruct poly as [cs]. simpl coefficients.
  destruct (order (mkPolynomial cs)) as [| [| [| [| m]]]] eqn:Ho; try lia.
  - unfold V1.quadratic. rewrite Ho. cbn [negb Nat.eqb V1.then_ app].
    eexists. split; [| intro rt; reflexivity].
    exact (eq_sym (Permutation_length (v1_sortAndReturn_complex [_; _] EPS))).
  - unfold V1.cubic. rewrite Ho. cbn [negb Nat.eqb V1.then_ app].
    eexists. split; [| intro rt; reflexivity].
    exact (eq_sym (Permutation_length (v1_sortAndReturn_complex (cubic_roots _) EPS))).
  - destruct (v1_deflation_loop_returns (mkPolynomial cs) tolerance max_iterations
                random_device (S (S (S (S m)))) (mkPolynomial cs) [])
      as (p' & extracted & Hloop & Hle & Hge & Hsum); [rewrite Ho; lia |].
    rewrite Hloop. cbn [V1.then_ fst snd].
    assert (H3 : order p' = 3%nat) by (rewrite Ho in Hge; lia).
    unfold V1.cubic. rewrite H3. cbn [negb Nat.eqb V1.then_ app].
    eexists. split; [| intro rt; reflexivity].
    rewrite length_app.
    rewrite <- (Permutation_length (v1_sortAndReturn_complex (cubic_roots p') EPS)).
    rewrite Ho in Hsum. simpl. lia.
Qed.

(** X9.  [polysolve] of the earlier revision rejects every polynomial of
    order <= 1 (its [case 1] is never reached, so linear equations are not
    solved), and on an order n >= 2 it has no failure at all: whatever the
    tolerance and the iteration bound are, even non-positive ones, it
    returns n values on a complex request and at most n on a real one,
    whether or not the iterations converged. *)
Theorem v1_polysolve_has_no_failure (poly : Polynomial) (tolerance : F)
    (max_iterations : Z) (random_device : nat -> nat -> F) :
  if (order poly <=? 1)%nat
  then
    forall rt,
      V1.polysolve rt poly tolerance max_iterations random_device
        = V1.Throws V1.TooFewCoefficients
  else
    (exists out,
       V1.polysolve RT_complex poly tolerance max_iterations random_device
         = V1.Returns out /\
       length out = order poly) /\
    (exists out,
       V1.polysolve RT_real poly tolerance max_iterations random_device
         = V1.Returns out /\
       (length out <= order poly)%nat).
Proof.
  destruct (order poly <=? 1)%nat eqn:Hord.
  - intro rt. unfold V1.polysolve. rewrite Hord. reflexivity.
  - apply Nat.leb_gt in Hord.
    destruct (v1_polysolve_found poly tolerance max_iterations random_device)
      as (found & Hlen & Hfound); [lia |].
    split.
    + eexists. split; [apply Hfound |].
      rewrite <- Hlen. symmetry.
      apply (Permutation_length (v1_sortAndReturn_complex found tolerance)).
    + eexists. split; [apply Hfound |].
      rewrite <- Hlen. apply v1_sortAndReturn_real_length.
Qed.

Lemma sortRoots_complex_perm (found out : list C) (tolerance : F) :
  sortRoots RT_complex found tolerance = Value out -> Permutation found out.
Proof.
  unfold sortRoots. destruct (fle tolerance (lit 0%Q)); [discriminate |].
  intro H. injection H as <-. apply std_sort_perm.
Qed.

(** X10.  On quadratics and cubics the two revisions agree: when the later
    [polysolve] succeeds with complex output on a polynomial of order 2 or
    3, the earlier [polysolve] returns the same roots, up to their order in
    the result, for any tolerance and iteration bound. *)
Theorem revisions_agree_on_low_orders (poly : Polynomial)
    (tolerance tolerance' : F) (max_iterations max_iterations' : Z)
    (random_device random_device' : nat -> nat -> F) (out : list C) :
  order poly = 2%nat \/ order poly = 3%nat ->
  polysolve RT_complex poly tolerance max_iterations random_device = Value out ->
  exists out',
    V1.polysolve RT_complex poly tolerance' max_iterations' random_device'
      = V1.Returns out' /\
    Permutation out out'.
Proof.
  intros Hord H. unfold polysolve in H.
  destruct (fle tolerance (lit 0%Q)) eqn:Htol; [discriminate |].
  destruct (max_iterations <? 1); [discriminate |].
  destruct (order poly <? 1)%nat; [discriminate |].
  apply bind_value in H. destruct H as (found & Hfound & Hsort).
  apply sortRoots_complex_perm in Hsort.
  unfold V1.polysolve.
  replace (order poly <=? 1)%nat with false
    by (symmetry; apply Nat.leb_gt; destruct Hord as [-> | ->]; lia).
  destruct poly as [cs]. unfold polysolve_roots in Hfound. simpl coefficients in *.
  destruct Hord as [Ho | Ho]; rewrite Ho in *.
  - apply bind_value in Hfound. destruct Hfound as (quadroots & Hq & Hfound).
    apply expect_value in Hq. injection Hfound as <-.
    unfold quadratic in Hq.
    destruct (fle EPS (lit 0%Q)) eqn:Heps; [discriminate |].
    rewrite Ho in Hq. cbn [negb Nat.eqb] in Hq.
    destruct (_ || _); [discriminate |].
    apply sortRoots_complex_perm in Hq.
    unfold V1.quadratic. rewrite Ho. cbn [negb Nat.eqb V1.then_ app].
    eexists. split; [reflexivity |].
    eapply perm_trans; [apply Permutation_sym, Hsort |].
    eapply perm_trans; [apply Permutation_sym, Hq |].
    eapply perm_trans; [apply v1_sortAndReturn_complex |].
    apply v1_sortAndReturn_complex.
  - apply bind_value in Hfound. destruct Hfound as (cubicroots & Hc & Hfound).
    apply expect_value in Hc. injection Hfound as <-.
    unfold cubic in Hc.
    destruct (fle EPS (lit 0%Q)) eqn:Heps; [discriminate |].
    rewrite Ho in Hc. cbn [negb Nat.eqb] in Hc.
    apply sortRoots_complex_perm in Hc.
    unfold V1.cubic. rewrite Ho. cbn [negb Nat.eqb V1.then_ app].
    eexists. split; [reflexivity |].
    eapply perm_trans; [apply Permutation_sym, Hsort |].
    eapply perm_trans; [apply Permutation_sym, Hc |].
    eapply perm_trans; [apply v1_sortAndReturn_complex |].
    apply v1_sortAndReturn_complex.
Qed.

End EarlierRevision.

(** * The further properties on binary64 inputs *)

(** Polishing on [steep_quartic]: [laguerre] accepts the guess 0, the
    Newton step leads to -512, where the polynomial overflows, and [newt]
    never converges. *)
Example steep_quartic_polish_not_finite :
  laguerre steep_quartic (0, 0)%float tolerance3 100 unit_draws = Value (0, 0)%float /\
  csub (0, 0)%float
       (cdiv (eval steep_quartic (0, 0)%float)
             (eval (derivativeOf steep_quartic) (0, 0)%float))
    = (PrimFloat.opp 512, 0)%float /\
  eval steep_quartic (PrimFloat.opp 512, 0)%float = (infinity, nan) /\
  finite_on steep_quartic (PrimFloat.opp 512, 0)%float = false /\
  newt tolerance3 100 steep_quartic (0, 0)%float = Value None.
Proof. repeat split; vm_compute; reflexivity. Qed.

Lemma polysolve_rejects_non_finite_root_witness :
  (exists root polished,
     laguerre quartic (c_of_real (lit 0%Q)) tolerance6 100 (unit_device 0%nat)
       = Value root /\
     newt tolerance6 100 quartic root = Value (Some polished) /\
     roots quartic_deflated = [polished] /\
     isfinite (re (eval quartic polished)) = true /\
     isfinite (im (eval quartic polished)) = true /\
     passes tolerance6 100 unit_device 1 (initial_state quartic) quartic_deflated) /\
  (In NewtonFailed [LaguerreFailed; NewtonFailed; RootNotFinite] /\
   polysolve RT_complex steep_quartic tolerance3 100 unit_device
     = Unexpected NewtonFailed).
Proof.
  split.
  - pose proof (polysolve_rejects_non_finite_root RT_complex quartic tolerance6 100
                  unit_device 0 (initial_state quartic)) as H.
    assert (Hpass : deflation_pass tolerance6 100 unit_device (initial_state quartic)
                    = Value quartic_deflated) by (vm_compute; reflexivity).
    rewrite Hpass in H. apply H.
    + split; vm_compute; reflexivity.
    + lia.
    + constructor.
    + vm_compute. repeat constructor.
  - pose proof (polysolve_rejects_non_finite_root RT_complex steep_quartic tolerance3 100
                  unit_device 0 (initial_state steep_quartic)) as H.
    assert (Hpass : deflation_pass tolerance3 100 unit_device (initial_state steep_quartic)
                    = Unexpected NewtonFailed) by (vm_compute; reflexivity).
    rewrite Hpass in H. apply H.
    + split; vm_compute; reflexivity.
    + lia.
    + constructor.
    + vm_compute. repeat constructor.
Defined.

Lemma newt_returns_converged_root_witness :
  1 <= 100 /\
  flt (fabs (re (eval quartic quartic_polished))) tolerance6 = true /\
  flt (fabs (im (eval quartic quartic_polished))) tolerance6 = true.
Proof.
  destruct (newt_returns_converged_root tolerance6 100 quartic quartic_root quartic_polished)
    as (Hmax & Hre & Him & _).
  - vm_compute. reflexivity.
  - repeat split; assumption.
Defined.

Lemma polysolve_failures_witness :
  (exists out, polysolve RT_complex quartic tolerance6 100 unit_device = Value out) \/
  (exists e,
     polysolve RT_complex quartic tolerance6 100 unit_device = Unexpected e /\
     In e [QuadraticNoSolution; LaguerreFailed; NewtonFailed; RootNotFinite]).
Proof.
  apply (polysolve_failures RT_complex quartic tolerance6 100 unit_device).
  - split; vm_compute; reflexivity.
  - lia.
  - vm_compute. repeat constructor.
  - vm_compute. reflexivity.
Defined.

Lemma polysolve_fails_on_multiple_root_at_origin_witness :
  polysolve RT_complex x4 tolerance6 100 unit_device = Unexpected NewtonFailed.
Proof.
  apply (polysolve_fails_on_multiple_root_at_origin RT_complex x4 tolerance6 100 unit_device).
  - split; vm_compute; reflexivity.
  - lia.
  - vm_compute. apply le_n.
  - vm_compute. reflexivity.
  - vm_compute. reflexivity.
Defined.

Lemma polysolve_extracted_roots_polished_witness :
  Forall (fun r =>
            flt (fabs (re (eval quartic r))) tolerance6 = true /\
            flt (fabs (im (eval quartic r))) tolerance6 = true /\
            isfinite (re (eval quartic r)) = true /\
            isfinite (im (eval quartic r)) = true)
         (firstn (order quartic - 3) quartic_found).
Proof.
  apply (polysolve_extracted_roots_polished quartic tolerance6 100 unit_device quartic_found).
  - vm_compute. apply le_n.
  - vm_compute. reflexivity.
Defined.

Lemma linear_single_root_witness :
  exists root,
    linear RT_complex x_plus_1 tolerance6 = Value [root] /\
    linear RT_real x_plus_1 tolerance6 = Value [re root].
Proof.
  assert (Htol : positive tolerance6) by (split; vm_compute; reflexivity).
  pose proof (linear_single_root x_plus_1 tolerance6 Htol) as H.
  cbv zeta in H.
  change (order x_plus_1 =? 1)%nat with true in H.
  destruct H as [H1 H2].
  eexists. split; [exact H1 |].
  rewrite H2. vm_compute. reflexivity.
Defined.

Lemma polysolve_quadratic_degeneracy_witness :
  polysolve RT_complex flat_quadratic tolerance6 100 unit_device
    = Unexpected QuadraticNoSolution.
Proof.
  assert (Htol : positive tolerance6) by (split; vm_compute; reflexivity).
  assert (Hmax : 1 <= 100) by lia.
  assert (Hord : order flat_quadratic = 2%nat) by reflexivity.
  assert (Heps : fle EPS (lit 0%Q) = false) by (vm_compute; reflexivity).
  exact (polysolve_quadratic_degeneracy RT_complex flat_quadratic tolerance6 100
           unit_device Htol Hmax Hord Heps).
Defined.

Lemma polysolve_real_output_witness :
  exists found kept,
    polysolve_roots quartic tolerance6 100 unit_device = Value found /\
    length found = order quartic /\
    Permutation
      (filter (fun r => negb (fle (fsqrt tolerance6) (fabs (im r)))) found) kept /\
    quartic_real = map re kept /\
    (length quartic_real <= order quartic)%nat.
Proof.
  apply (polysolve_real_output quartic tolerance6 100 unit_device quartic_real).
  vm_compute. reflexivity.
Defined.

Lemma revisions_agree_on_low_orders_witness :
  exists out',
    V1.polysolve RT_complex x2_plus_1 1%float 0 unit_device = V1.Returns out' /\
    Permutation [(PrimFloat.opp 0, PrimFloat.opp 1); (PrimFloat.opp 0, 1%float)] out'.
Proof.
  apply (revisions_agree_on_low_orders x2_plus_1 tolerance6 1%float 100 0
           unit_device unit_device).
  - left. reflexivity.
  - vm_compute. reflexivity.
Defined.

(** With no iteration allowed the earlier [polysolve] still answers: the
    guess 0 is taken as a root of (x - 1)(x - 2)(x - 3)(x - 4). *)
(** Binary64 satisfies the law of [FiniteBelowTolerance]: [|v| < t] fails
    for a NaN and for an infinity. *)
Lemma binary64_below_is_finite (v t : float) :
  flt (fabs v) t = true -> isfinite v = true.
Proof.
  simpl. unfold is_finite.
  rewrite !FloatAxioms.ltb_spec, FloatAxioms.abs_spec.
  change (FloatOps.Prim2SF infinity) with (SpecFloat.S754_infinity false).
  destruct (FloatOps.Prim2SF v) as [s | s | | s m e];
    destruct (FloatOps.Prim2SF t) as [s' | [|] | | s' m' e'];
    simpl; try reflexivity; try discriminate.
Qed.

Lemma polysolve_never_reports_root_not_finite_witness :
  polysolve RT_complex steep_quartic tolerance3 100 unit_device
    = Unexpected NewtonFailed /\
  In NewtonFailed [QuadraticNoSolution; LaguerreFailed; NewtonFailed].
Proof.
  assert (Hrun : polysolve RT_complex steep_quartic tolerance3 100 unit_device
                 = Unexpected NewtonFailed) by (vm_compute; reflexivity).
  split; [exact Hrun |].
  exact (polysolve_never_reports_root_not_finite binary64_below_is_finite
           RT_complex steep_quartic tolerance3 100 unit_device NewtonFailed Hrun).
Defined.

Example v1_polysolve_without_iterations :
  exists r2 r3 r4,
    V1.polysolve RT_complex quartic tolerance6 0 unit_device
      = V1.Returns [(0, 0)%float; r2; r3; r4].
Proof.
  do 3 eexists. vm_compute. reflexivity.
Qed.
